(** * Watch-progress tracking of ML Studio: the progress store client
      (src/lib/userProgress.js) and the playback monitor
      (src/components/VideoCard.jsx).

    JavaScript numbers are IEEE 754 doubles.  What the player reports
    and the quotient [(current / duration) * 100] are doubles, computed
    with the machine's division and multiplication ([PrimFloat]); a
    finite double is then read as the rational it stands for ([Q]), on
    which [Math.round] and the comparison with 80 are exact.  The
    monitor is modelled on the readings for which that quotient is a
    finite number: a reading that makes it NaN or infinite is no
    [Sample]. *)

From Stdlib Require Import QArith Qround Lqa.
From Stdlib Require Import PrimFloat SpecFloat FloatOps.
From stdpp Require Import gmap strings list fin_maps.

Local Open Scope Z_scope.

(** ** JavaScript primitives used by the two files *)

Module JS.

(** The rational a finite double stands for; [None] for NaN and the
    infinities. *)
Definition exact (x : float) : option Q :=
  match Prim2SF x with
  | S754_zero _ => Some 0%Q
  | S754_finite sign m e =>
      Some (Qred (inject_Z (if sign then Z.neg m else Z.pos m)
                  * Qpower (2 # 1) e)%Q)
  | S754_infinity _ => None
  | S754_nan => None
  end.

Definition isFinite (x : float) : bool :=
  match exact x with Some _ => true | None => false end.

(** The value of a finite double. *)
Definition value (x : float) : Q := default 0%Q (exact x).

(** [!x] on a number: zero, minus zero and NaN are falsy. *)
Definition falsyNumber (x : float) : bool :=
  match Prim2SF x with
  | S754_zero _ => true
  | S754_nan => true
  | _ => false
  end.

(** [x === 0] on a number. *)
Definition isZero (x : float) : bool :=
  match Prim2SF x with
  | S754_zero _ => true
  | _ => false
  end.

(** [x > 0] on a number. *)
Definition positive (x : float) : bool :=
  match Prim2SF x with
  | S754_finite false _ _ => true
  | S754_infinity false => true
  | _ => false
  end.

(** [Math.round]: nearest integer, halves towards plus infinity. *)
Definition round (x : Q) : Z := Qfloor (x + (1 # 2))%Q.

(** [x >= 80] on numbers. *)
Definition ge80 (x : Q) : bool := Qle_bool (80 # 1) x.

(** Truthiness of a value that is a string, [null] or [undefined]:
    the absent value and the empty string are falsy; a truthy value
    is returned as the string it is. *)
Definition truthy (s : option string) : option string :=
  match s with
  | None => None
  | Some s => if decide (s = ""%string) then None else Some s
  end.

(** What an [await] observes: the value of a fulfilled promise or
    the reason of a rejected one. *)
Inductive settled (E A : Type) : Type :=
| Fulfilled (a : A)
| Rejected (e : E).
Global Arguments Fulfilled {E A} a.
Global Arguments Rejected {E A} e.

(** The property names every plain object inherits from
    [Object.prototype]. *)
Definition objectPrototype : list string :=
  ["constructor"; "hasOwnProperty"; "isPrototypeOf"; "propertyIsEnumerable";
   "toLocaleString"; "toString"; "valueOf"; "__proto__";
   "__defineGetter__"; "__defineSetter__"; "__lookupGetter__";
   "__lookupSetter__"]%string.

(** What [o[k]] finds on a plain object [o] with own properties
    [o]: an own property, else a member of [Object.prototype], else
    [undefined]. *)
Inductive property (A : Type) : Type :=
| Own (a : A)
| Inherited
| Undefined.
Global Arguments Own {A} a.
Global Arguments Inherited {A}.
Global Arguments Undefined {A}.

Definition inherited (k : string) : bool := bool_decide (k ∈ objectPrototype).

Definition getProperty {A} (o : gmap string A) (k : string) : property A :=
  match o !! k with
  | Some a => Own a
  | None => if inherited k then Inherited else Undefined
  end.

End JS.

(** ** The document database behind [getDoc] / [setDoc] *)

Module Firestore.
Import Stdlib.Strings.Ascii.

(** The value stored under [videoProgress[videoId]]. *)
Record ProgressRecord : Type := mkRecord {
  completed : bool;
  pct : Z;
  updatedAt : Z
}.

(** A document of the [users] collection: the [videoProgress]
    sub-document, when present, and the other top-level fields, which
    this code never reads. *)
Record UserDoc : Type := mkDoc {
  videoProgress : option (gmap string ProgressRecord);
  otherFields : gmap string string
}.

Inductive Request : Type :=
| GetDoc (uid : string)
| SetDoc (uid : string) (data : UserDoc).

(** [online = false] stands for a store that answers every request
    with a refusal (permission denied, for instance): the request is
    then rejected and changes nothing. *)
Record t : Type := mkStore {
  users : gmap string UserDoc;
  online : bool;
  requests : list Request
}.

Inductive Error : Type :=
| NoUid            (* new Error("No uid for saving progress") *)
| StoreUnavailable (* rejection of getDoc / setDoc *)
| InvalidFieldName (* setDoc refusing its data before sending it *).

Definition logged (r : Request) (fs : t) : t :=
  mkStore (users fs) (online fs) (requests fs ++ [r]).

(** [getDoc(doc(db, "users", uid))]: the snapshot, [None] when
    [snap.exists()] is false. *)
Definition getDoc (uid : string) (fs : t)
  : JS.settled Error (option UserDoc) * t :=
  if online fs
  then (JS.Fulfilled (users fs !! uid), logged (GetDoc uid) fs)
  else (JS.Rejected StoreUnavailable, logged (GetDoc uid) fs).

(** Field names [setDoc] accepts.  The client library checks every
    field name of the data before it sends anything: the empty name is
    refused, and so is a name matching [/^__.*__$/].  The dot of that
    pattern matches every character but the line terminators (line
    feed, carriage return, U+2028 and U+2029, the last two being the
    bytes E2 80 A8 and E2 80 A9 of a UTF-8 string). *)
Definition lineSeparator : string :=
  String (ascii_of_nat 226) (String (ascii_of_nat 128)
    (String (ascii_of_nat 168) EmptyString)).
Definition paragraphSeparator : string :=
  String (ascii_of_nat 226) (String (ascii_of_nat 128)
    (String (ascii_of_nat 169) EmptyString)).

Fixpoint lineTerminatorFree (s : string) : bool :=
  match s with
  | EmptyString => true
  | String a s' =>
      negb (Ascii.eqb a (ascii_of_nat 10))
      && negb (Ascii.eqb a (ascii_of_nat 13))
      && negb (String.prefix lineSeparator s)
      && negb (String.prefix paragraphSeparator s)
      && lineTerminatorFree s'
  end.

(** [/^__.*__$/.test(s)] *)
Definition reserved (s : string) : bool :=
  (4 <=? String.length s)%nat
  && String.prefix "__" s
  && String.eqb (String.substring (String.length s - 2) 2 s) "__"
  && lineTerminatorFree (String.substring 2 (String.length s - 4) s).

Definition validFieldName (s : string) : bool :=
  negb (String.eqb s "") && negb (reserved s).

(** The field names of a document that are not fixed by this code:
    the keys of [videoProgress] and the other top-level fields.
    ("videoProgress", "completed", "pct" and "updatedAt" are valid.) *)
Definition fieldNames (data : UserDoc) : list string :=
  match videoProgress data with
  | Some vp => (map_to_list vp).*1
  | None => []
  end ++ (map_to_list (otherFields data)).*1.

(** Deep merge of [setDoc(_, data, { merge: true })]: a field of
    [data] replaces the stored field of the same path, nested maps are
    merged key by key, everything else stays.  A progress record
    always carries its three fields, so merging two records under one
    key yields the new record. *)
Definition mergeProgress (data old : option (gmap string ProgressRecord))
  : option (gmap string ProgressRecord) :=
  match data, old with
  | Some d, Some o => Some (d ∪ o)
  | Some d, None => Some d
  | None, o => o
  end.

Definition mergeDoc (data : UserDoc) (old : option UserDoc) : UserDoc :=
  match old with
  | None => data
  | Some o =>
      mkDoc (mergeProgress (videoProgress data) (videoProgress o))
            (otherFields data ∪ otherFields o)
  end.

(** [setDoc(doc(db, "users", uid), data, { merge: true })].  Data with
    a refused field name makes [setDoc] throw before any request is
    made, whatever the state of the store; inside the [async] caller
    that is a rejection like any other. *)
Definition setDocMerge (uid : string) (data : UserDoc) (fs : t)
  : JS.settled Error unit * t :=
  if negb (forallb validFieldName (fieldNames data))
  then (JS.Rejected InvalidFieldName, fs)
  else if online fs
  then (JS.Fulfilled tt,
        mkStore (<[uid := mergeDoc data (users fs !! uid)]> (users fs))
                (online fs) (requests fs ++ [SetDoc uid data]))
  else (JS.Rejected StoreUnavailable, logged (SetDoc uid data) fs).

(** The progress record stored for a user and a video, if any. *)
Definition stored (fs : t) (uid videoId : string) : option ProgressRecord :=
  d ← users fs !! uid; vp ← videoProgress d; vp !! videoId.

End Firestore.

(** ** src/lib/userProgress.js *)

Module UserProgress.
Import Firestore.

Definition getUserProgress (uid : option string) (fs : Firestore.t)
  : JS.settled Error (gmap string ProgressRecord) * Firestore.t :=
  match JS.truthy uid with
  | None => (JS.Fulfilled ∅, fs)
  | Some u =>
      match getDoc u fs with
      | (JS.Rejected e, fs') => (JS.Rejected e, fs')
      | (JS.Fulfilled None, fs') => (JS.Fulfilled ∅, fs')
      | (JS.Fulfilled (Some data), fs') =>
          (JS.Fulfilled (default ∅ (videoProgress data)), fs')
      end
  end.

(** The object literal handed to [setDoc]. *)
Definition progressPatch (videoId : string) (p : Q) (now : Z) : UserDoc :=
  mkDoc (Some {[ videoId := mkRecord (JS.ge80 p) (JS.round p) now ]}) ∅.

(** [now] is the reading of [Date.now()]. *)
Definition saveVideoProgress (now : Z) (uid : option string)
    (videoId : string) (p : Q) (fs : Firestore.t)
  : JS.settled Error unit * Firestore.t :=
  match JS.truthy uid with
  | None => (JS.Rejected NoUid, fs)
  | Some u => setDocMerge u (progressPatch videoId p now) fs
  end.

End UserProgress.

(** ** src/components/VideoCard.jsx *)

Module VideoCard.

(** [auth.currentUser], when not [null]. *)
Record User : Type := mkUser { uid : string }.

(** The player handle delivered by [onReady]; [hasGetDuration] is
    [typeof player.getDuration === "function"]. *)
Record Player : Type := mkPlayer { hasGetDuration : bool }.

(** [(current / duration) * 100], in double arithmetic. *)
Definition percentOf (current duration : float) : float :=
  ((current / duration) * 100)%float.

(** What the player answers when a tick asks it: two numbers.  When
    the duration passes the callback's guard, the percent computed
    from them is a finite number. *)
Record Sample : Type := mkSample {
  getDuration : float;
  getCurrentTime : float;
  finitePercent :
    JS.falsyNumber getDuration
    || JS.isFinite (percentOf getCurrentTime getDuration) = true
}.

(** The variables of the enclosing render that the interval callback
    created by [onReady] closes over.  They are [const] bindings of
    that render: later [setCompleted] calls and later changes of
    [auth.currentUser] do not change them. *)
Record Closure : Type := mkClosure {
  cl_completed : bool;
  cl_user : option User;
  cl_videoId : string
}.

Record SaveCall : Type := mkCall {
  call_uid : string;
  call_videoId : string;
  call_pct : Q
}.

Inductive LogEntry : Type :=
| LoadProgressError (e : Firestore.Error)   (* console.warn *)
| SaveProgressFailed (e : Firestore.Error)  (* console.error *).

(** One mounted component instance together with the part of the
    host it acts on: the interval timers, the clock, the store, the
    console, the rejections nobody handled and the authentication
    state.  [user] is the [const user = auth.currentUser] of the
    latest render: the component does not listen to sign-in changes,
    so it lags behind [authUser] until the next render.  Handlers
    handed to the player are those of the latest render, so they see
    its [completed] and [user]; the interval callback sees its
    [Closure]. *)
Record Config : Type := mkConfig {
  videoId : string;                  (* prop *)
  user : option User;                (* const user of the latest render *)
  completed : bool;                  (* useState(false) *)
  pct : Z;                           (* useState(0) *)
  playerRef : option Player;         (* useRef(null) *)
  pollRef : option positive;         (* useRef(null) *)
  mounted : bool;                    (* let mounted of the first effect *)
  timers : gmap positive Closure;    (* live intervals and their callbacks *)
  nextTimer : positive;              (* the id setInterval returns next *)
  clock : Z;                         (* Date.now() *)
  fs : Firestore.t;
  saveCalls : list SaveCall;         (* calls of saveVideoProgress *)
  console : list LogEntry;
  unhandled : list Firestore.Error;  (* unhandled promise rejections *)
  authUser : option User             (* auth.currentUser *)
}.

(** *** A state monad over [Config] *)

Definition M (A : Type) : Type := Config → A * Config.

Definition ret {A} (a : A) : M A := λ c, (a, c).
Definition bind {A B} (m : M A) (k : A → M B) : M B :=
  λ c, let (a, c') := m c in k a c'.
Definition get : M Config := λ c, (c, c).
Definition exec {A} (m : M A) (c : Config) : Config := snd (m c).

Notation "x <- m ;; k" := (bind m (λ x, k))
  (at level 100, m at next level, right associativity).
Notation "m ;;; k" := (bind m (λ _, k))
  (at level 100, right associativity).

Definition setVideoId (v : string) : M unit := λ c,
  (tt, mkConfig v (user c) (completed c) (pct c) (playerRef c) (pollRef c)
         (mounted c) (timers c) (nextTimer c) (clock c) (fs c)
         (saveCalls c) (console c) (unhandled c) (authUser c)).
Definition setUser (u : option User) : M unit := λ c,
  (tt, mkConfig (videoId c) u (completed c) (pct c) (playerRef c) (pollRef c)
         (mounted c) (timers c) (nextTimer c) (clock c) (fs c)
         (saveCalls c) (console c) (unhandled c) (authUser c)).
Definition setCompleted (b : bool) : M unit := λ c,
  (tt, mkConfig (videoId c) (user c) b (pct c) (playerRef c) (pollRef c)
         (mounted c) (timers c) (nextTimer c) (clock c) (fs c)
         (saveCalls c) (console c) (unhandled c) (authUser c)).
Definition setPct (n : Z) : M unit := λ c,
  (tt, mkConfig (videoId c) (user c) (completed c) n (playerRef c) (pollRef c)
         (mounted c) (timers c) (nextTimer c) (clock c) (fs c)
         (saveCalls c) (console c) (unhandled c) (authUser c)).
Definition setPlayerRef (p : option Player) : M unit := λ c,
  (tt, mkConfig (videoId c) (user c) (completed c) (pct c) p (pollRef c)
         (mounted c) (timers c) (nextTimer c) (clock c) (fs c)
         (saveCalls c) (console c) (unhandled c) (authUser c)).
Definition setPollRef (r : option positive) : M unit := λ c,
  (tt, mkConfig (videoId c) (user c) (completed c) (pct c) (playerRef c) r
         (mounted c) (timers c) (nextTimer c) (clock c) (fs c)
         (saveCalls c) (console c) (unhandled c) (authUser c)).
Definition setMounted (b : bool) : M unit := λ c,
  (tt, mkConfig (videoId c) (user c) (completed c) (pct c) (playerRef c)
         (pollRef c) b (timers c) (nextTimer c) (clock c) (fs c)
         (saveCalls c) (console c) (unhandled c) (authUser c)).
Definition setHost (on : bool) (now : Z) : M unit := λ c,
  (tt, mkConfig (videoId c) (user c) (completed c) (pct c) (playerRef c)
         (pollRef c) (mounted c) (timers c) (nextTimer c) now
         (Firestore.mkStore (Firestore.users (fs c)) on
            (Firestore.requests (fs c)))
         (saveCalls c) (console c) (unhandled c) (authUser c)).

(** A sign-in or a sign-out: [auth.currentUser] changes. *)
Definition setAuthUser (u : option User) : M unit := λ c,
  (tt, mkConfig (videoId c) (user c) (completed c) (pct c) (playerRef c)
         (pollRef c) (mounted c) (timers c) (nextTimer c) (clock c) (fs c)
         (saveCalls c) (console c) (unhandled c) u).

(** [clearInterval(id)]: the timer stops firing. *)
Definition clearInterval (id : positive) : M unit := λ c,
  (tt, mkConfig (videoId c) (user c) (completed c) (pct c) (playerRef c)
         (pollRef c) (mounted c) (delete id (timers c)) (nextTimer c)
         (clock c) (fs c) (saveCalls c) (console c) (unhandled c)
         (authUser c)).

(** [setInterval(callback, 1000)]: a fresh, non-zero timer id. *)
Definition setInterval (cl : Closure) : M positive := λ c,
  (nextTimer c,
   mkConfig (videoId c) (user c) (completed c) (pct c) (playerRef c)
     (pollRef c) (mounted c) (<[nextTimer c := cl]> (timers c))
     (Pos.succ (nextTimer c)) (clock c) (fs c) (saveCalls c) (console c)
     (unhandled c) (authUser c)).

Definition consoleLog (e : LogEntry) : M unit := λ c,
  (tt, mkConfig (videoId c) (user c) (completed c) (pct c) (playerRef c)
         (pollRef c) (mounted c) (timers c) (nextTimer c) (clock c) (fs c)
         (saveCalls c) (console c ++ [e]) (unhandled c) (authUser c)).

(** A rejected promise that nothing awaits or catches. *)
Definition unhandledRejection (e : Firestore.Error) : M unit := λ c,
  (tt, mkConfig (videoId c) (user c) (completed c) (pct c) (playerRef c)
         (pollRef c) (mounted c) (timers c) (nextTimer c) (clock c) (fs c)
         (saveCalls c) (console c) (unhandled c ++ [e]) (authUser c)).

(** A call [saveVideoProgress(u, v, p)] and the way its promise
    settles. *)
Definition callSave (u v : string) (p : Q)
  : M (JS.settled Firestore.Error unit) := λ c,
  let (r, fs') := UserProgress.saveVideoProgress (clock c) (Some u) v p (fs c) in
  (r, mkConfig (videoId c) (user c) (completed c) (pct c) (playerRef c)
        (pollRef c) (mounted c) (timers c) (nextTimer c) (clock c) fs'
        (saveCalls c ++ [mkCall u v p]) (console c) (unhandled c)
        (authUser c)).

Definition callGetUserProgress (u : string)
  : M (JS.settled Firestore.Error (gmap string Firestore.ProgressRecord)) :=
  λ c,
  let (r, fs') := UserProgress.getUserProgress (Some u) (fs c) in
  (r, mkConfig (videoId c) (user c) (completed c) (pct c) (playerRef c)
        (pollRef c) (mounted c) (timers c) (nextTimer c) (clock c) fs'
        (saveCalls c) (console c) (unhandled c) (authUser c)).

(** *** The component *)

(** First render, with [u] signed in (or nobody): [useState(false)],
    [useState(0)], [useRef(null)]. *)
Definition mount (v : string) (u : option User) (now : Z)
    (store : Firestore.t) : Config :=
  mkConfig v u false 0 None None true ∅ 1%positive now store [] [] [] u.

(** A later render: the prop and [auth.currentUser] are read again. *)
Definition render (v : string) : M unit :=
  c <- get ;;
  setVideoId v ;;;
  setUser (authUser c).

(** [v.pct || 0] *)
Definition orZero (n : Z) : Z := if decide (n = 0) then 0 else n.

(** The body of [load], run by the first effect; the read and the
    code after its [await] are one step, taken when the promise
    settles.  [progress[videoId]] is a property lookup on a plain
    object: without a record of that name it finds what the object
    inherits, and a member of [Object.prototype] is truthy and has
    neither [completed] nor [pct]. *)
Definition load : M unit :=
  c <- get ;;
  match user c with
  | None => ret tt
  | Some u =>
      r <- callGetUserProgress (uid u) ;;
      match r with
      | JS.Fulfilled progress =>
          match JS.getProperty progress (videoId c) with
          | JS.Own v =>
              if mounted c
              then setCompleted (Firestore.completed v) ;;;
                   setPct (orZero (Firestore.pct v))
              else ret tt
          | JS.Inherited =>
              if mounted c
              then setCompleted false ;;;
                   setPct 0
              else ret tt
          | JS.Undefined => ret tt
          end
      | JS.Rejected err => consoleLog (LoadProgressError err)
      end
  end.

(** The callback handed to [setInterval], with the render variables
    [cl] it closes over and the player's answers [s].  The inner
    [try]/[catch] around the awaited write logs a rejection; the outer
    one has nothing left to catch here, the player's answers being
    numbers. *)
Definition pollCallback (cl : Closure) (s : Sample) : M unit :=
  c <- get ;;
  match playerRef c with
  | None => ret tt
  | Some player =>
      if negb (hasGetDuration player) then ret tt
      else
        let duration := getDuration s in
        let current := getCurrentTime s in
        if JS.falsyNumber duration || JS.isZero duration then ret tt
        else
          let percent := JS.value (percentOf current duration) in
          setPct (JS.round percent) ;;;
          if JS.ge80 percent && negb (cl_completed cl)
          then
            setCompleted true ;;;
            match cl_user cl with
            | Some u =>
                r <- callSave (uid u) (cl_videoId cl) percent ;;
                match r with
                | JS.Fulfilled _ => ret tt
                | JS.Rejected err => consoleLog (SaveProgressFailed err)
                end
            | None => ret tt
            end
          else ret tt
  end.

Definition onReady (target : Player) : M unit :=
  c <- get ;;
  setPlayerRef (Some target) ;;;
  match pollRef c with
  | Some id => clearInterval id
  | None => ret tt
  end ;;;
  id <- setInterval (mkClosure (completed c) (user c) (videoId c)) ;;
  setPollRef (Some id).

(** The promise of [saveVideoProgress] is dropped here: a rejection
    reaches no handler of the component. *)
Definition onStateChange (data : Z) : M unit :=
  c <- get ;;
  if (data =? 0) && negb (completed c)
  then
    setCompleted true ;;;
    match user c with
    | Some u =>
        r <- callSave (uid u) (videoId c) (100 # 1) ;;
        match r with
        | JS.Fulfilled _ => ret tt
        | JS.Rejected err => unhandledRejection err
        end
    | None => ret tt
    end
  else ret tt.

(** The cleanups run at unmount: [mounted = false] of the first
    effect, [clearInterval] of the last. *)
Definition cleanup : M unit :=
  c <- get ;;
  setMounted false ;;;
  match pollRef c with
  | Some id => clearInterval id
  | None => ret tt
  end.

(** *** What can happen to an instance *)

Inductive Event : Type :=
| Load                                 (* the seed read settles *)
| Ready (target : Player)              (* the player reports ready *)
| Tick (id : positive) (s : Sample)    (* timer [id] is due *)
| StateChange (data : Z)               (* the player changes state *)
| Props (v : string)                   (* a render, with videoId [v] *)
| Unmount
| Host (on : bool) (now : Z)           (* store and clock move on *)
| Auth (u : option User)               (* sign-in or sign-out *).

(** An event is a call the surroundings make into the component's
    code: the promise of the seed read settles, a timer comes due,
    the player calls one of the handlers it was given, React renders
    or unmounts.  The model lets every event happen at any time, also
    after the unmount: whether the player still calls back then is up
    to the player library.  React renders after every change of state
    and whenever the parent renders; [Props] at any time includes
    these. *)
Definition step (e : Event) (c : Config) : Config :=
  match e with
  | Load => exec load c
  | Ready target => exec (onReady target) c
  | Tick id s =>
      match timers c !! id with
      | Some cl => exec (pollCallback cl s) c
      | None => c
      end
  | StateChange data => exec (onStateChange data) c
  | Props v => exec (render v) c
  | Unmount => exec cleanup c
  | Host on now => exec (setHost on now) c
  | Auth u => exec (setAuthUser u) c
  end.

Definition run (es : list Event) (c : Config) : Config :=
  foldl (λ c e, step e c) c es.

(** *** Invariant of an instance *)

(** Every live timer is the one [pollRef] holds. *)
Definition timers_inv (c : Config) : Prop :=
  ∀ id cl, timers c !! id = Some cl → pollRef c = Some id.

End VideoCard.

(** ** Concrete viewing sessions *)

Module Scenario.
Import VideoCard.

Definition alice : User := mkUser "alice".
Definition emptyStore : Firestore.t := Firestore.mkStore ∅ true [].
Definition player : Player := mkPlayer true.

(** The reading of a player that has no duration yet. *)
Definition noDuration : Sample := mkSample 0 0 eq_refl.

(** The player's answers at position [current] of a video lasting
    [duration] seconds ([noDuration] when these are no [Sample]). *)
Definition at_ (current duration : float) : Sample :=
  match
    Sumbool.sumbool_of_bool
      (JS.falsyNumber duration || JS.isFinite (percentOf current duration))
  with
  | left ok => mkSample duration current ok
  | right _ => noDuration
  end.
Global Arguments at_ (current duration)%_float.

(** A first render for a signed-in user, and one for nobody. *)
Definition signedIn : Config := mount "vid" (Some alice) 1000 emptyStore.
Definition signedOut : Config := mount "vid" None 1000 emptyStore.

(** The timer started by the first [onReady] of an instance. *)
Definition t1 : positive := 1%positive.

(** Property 6 of the specification up to its third tick: the seed
    read, the player, then positions 50, 100 and 170 of 200. *)
Definition watchedTo85 : Config :=
  run [Load; Ready player; Tick t1 (at_ 50 200); Tick t1 (at_ 100 200);
       Tick t1 (at_ 170 200)] signedIn.

End Scenario.

(** ** src/components/UploadBox.jsx *)

Module UploadBox.
Import Stdlib.Strings.Ascii.

(** [toLowerCase] on the ASCII letters.  File names are byte strings
    here; the characters outside ASCII stay as they are, and none of
    them lowercases to a letter of "csv", "xlsx" or "xls", so the two
    extension checks below decide as the JavaScript ones do. *)
Definition lowerAscii (a : Ascii.ascii) : Ascii.ascii :=
  let n := Ascii.nat_of_ascii a in
  if ((65 <=? n) && (n <=? 90))%nat then Ascii.ascii_of_nat (n + 32) else a.

Fixpoint toLowerCase (s : string) : string :=
  match s with
  | EmptyString => EmptyString
  | String a s' => String (lowerAscii a) (toLowerCase s')
  end.

(** [s.split(".")], scanning with the piece read so far in [cur]. *)
Fixpoint splitFrom (cur s : string) : list string :=
  match s with
  | EmptyString => [cur]
  | String a s' =>
      if Ascii.eqb a "."%char
      then cur :: splitFrom EmptyString s'
      else splitFrom (cur ++ String a EmptyString) s'
  end.

Definition split (s : string) : list string := splitFrom EmptyString s.

(** [s.endsWith(suffix)] *)
Fixpoint endsWith (s suffix : string) : bool :=
  String.eqb s suffix
  || match s with
     | EmptyString => false
     | String _ s' => endsWith s' suffix
     end.

(** The part of a [File] the component looks at. *)
Record File : Type := mkFile { name : string }.

(** A parsed row: the cells by column. *)
Definition Row : Type := list (string * string).

Inductive ErrorMessage : Type :=
| NoError              (* "" *)
| OnlyCsvExcelAllowed  (* "Only .csv and .xlsx/.xls files are allowed." *)
| ErrorParsingCsv      (* "Error parsing CSV file." *)
| ExcelPreviewMissing  (* "Preview for Excel files not implemented yet." *)
| SelectFileFirst      (* "Please select a file first." *)
| UploadFailed         (* "Upload failed." *).

(** A request [axios.post(".../datasets/upload", form, { headers })]. *)
Record Post : Type := mkPost {
  post_file : File;
  post_uid : option string   (* the X-User-Uid header *)
}.

Record State : Type := mkState {
  file : option File;          (* useState(null) *)
  previewRows : list Row;      (* useState([]) *)
  previewCols : list string;   (* useState([]) *)
  parsing : bool;              (* useState(false) *)
  error : ErrorMessage;        (* useState("") *)
  success : bool;              (* useState(""): the success line shown *)
  uploading : bool;            (* useState(false) *)
  currentUid : option string;  (* auth?.currentUser?.uid *)
  parseJobs : list File;       (* Papa.parse calls *)
  posts : list Post;           (* upload requests sent *)
  inFlight : nat;              (* requests not settled yet *)
  uploaded : nat               (* calls of onUploaded *)
}.

Definition init (uid : option string) : State :=
  mkState None [] [] false NoError false false uid [] [] 0 0.

(** [f.name.split(".").pop()?.toLowerCase()] *)
Definition extension (f : File) : option string :=
  toLowerCase <$> last (split (name f)).

(** [["csv", "xlsx", "xls"].includes(ext)] *)
Definition allowed (ext : option string) : bool :=
  match ext with
  | Some e =>
      String.eqb e "csv" || String.eqb e "xlsx" || String.eqb e "xls"
  | None => false
  end.

Definition generatePreview (f : File) (st : State) : State :=
  if endsWith (toLowerCase (name f)) ".csv"
  then mkState (file st) [] [] true NoError false (uploading st)
         (currentUid st) (parseJobs st ++ [f]) (posts st) (inFlight st)
         (uploaded st)
  else mkState (file st) [] [] false ExcelPreviewMissing false (uploading st)
         (currentUid st) (parseJobs st) (posts st) (inFlight st)
         (uploaded st).

Definition handleFileSelect (f : File) (st : State) : State :=
  if allowed (extension f)
  then generatePreview f
         (mkState (Some f) (previewRows st) (previewCols st) (parsing st)
            NoError false (uploading st) (currentUid st) (parseJobs st)
            (posts st) (inFlight st) (uploaded st))
  else mkState (file st) (previewRows st) (previewCols st) (parsing st)
         OnlyCsvExcelAllowed false (uploading st) (currentUid st)
         (parseJobs st) (posts st) (inFlight st) (uploaded st).

(** [onDrop] and [onFileChange]: [if (f) handleFileSelect(f)]. *)
Definition onFile (f : option File) (st : State) : State :=
  match f with
  | Some f => handleFileSelect f st
  | None => st
  end.

(** The [complete] callback of [Papa.parse]:
    [results.meta.fields || []], [results.data || []]. *)
Definition parseComplete (fields : option (list string))
    (data : option (list Row)) (st : State) : State :=
  mkState (file st) (default [] data) (default [] fields) false (error st)
    (success st) (uploading st) (currentUid st) (parseJobs st) (posts st)
    (inFlight st) (uploaded st).

(** The [error] callback of [Papa.parse]. *)
Definition parseError (st : State) : State :=
  mkState (file st) (previewRows st) (previewCols st) false ErrorParsingCsv
    (success st) (uploading st) (currentUid st) (parseJobs st) (posts st)
    (inFlight st) (uploaded st).

(** The "Remove" button. *)
Definition remove (st : State) : State :=
  mkState None [] [] (parsing st) NoError false (uploading st)
    (currentUid st) (parseJobs st) (posts st) (inFlight st) (uploaded st).

(** [handleUpload] up to its [await]. *)
Definition handleUpload (st : State) : State :=
  match file st with
  | None =>
      mkState None (previewRows st) (previewCols st) (parsing st)
        SelectFileFirst (success st) (uploading st) (currentUid st)
        (parseJobs st) (posts st) (inFlight st) (uploaded st)
  | Some f =>
      mkState (Some f) (previewRows st) (previewCols st) (parsing st)
        NoError false true (currentUid st) (parseJobs st)
        (posts st ++ [mkPost f (JS.truthy (currentUid st))])
        (S (inFlight st)) (uploaded st)
  end.

(** [handleUpload] after its [await]: the request succeeded, or the
    [catch] block. *)
Definition uploadSettled (ok : bool) (st : State) : State :=
  if ok
  then mkState None [] [] (parsing st) (error st) true false (currentUid st)
         (parseJobs st) (posts st) (pred (inFlight st)) (S (uploaded st))
  else mkState (file st) (previewRows st) (previewCols st) (parsing st)
         UploadFailed (success st) false (currentUid st) (parseJobs st)
         (posts st) (pred (inFlight st)) (uploaded st).

Inductive Event : Type :=
| Picked (f : option File)       (* drop or file input change *)
| ParseComplete (fields : option (list string)) (data : option (list Row))
| ParseError
| RemoveClick
| UploadClick
| UploadSettled (ok : bool).

(** The "Remove" and "Upload" buttons are rendered while a file is
    selected, and "Upload" is disabled while [uploading]; a request
    settles only while one is in flight. *)
Definition step (e : Event) (st : State) : State :=
  match e with
  | Picked f => onFile f st
  | ParseComplete fields data => parseComplete fields data st
  | ParseError => parseError st
  | RemoveClick =>
      match file st with
      | Some _ => remove st
      | None => st
      end
  | UploadClick =>
      match file st with
      | Some _ => if uploading st then st else handleUpload st
      | None => st
      end
  | UploadSettled ok =>
      match inFlight st with
      | O => st
      | S _ => uploadSettled ok st
      end
  end.

Definition run (es : list Event) (st : State) : State :=
  foldl (λ st e, step e st) st es.

(** No ["."] occurs in the string. *)
Fixpoint dotless (s : string) : bool :=
  match s with
  | EmptyString => true
  | String a s' => negb (Ascii.eqb a "."%char) && dotless s'
  end.

(** The selected file and every file sent passed the extension check,
    and the [uploading] flag counts the requests in flight. *)
Definition upload_inv (st : State) : Prop :=
  (∀ f, file st = Some f → allowed (extension f) = true)
  ∧ Forall (λ p, allowed (extension (post_file p)) = true) (posts st)
  ∧ inFlight st = (if uploading st then 1 else 0)%nat.

End UploadBox.

(** ** Predicates used to state what the monitor keeps *)

Module Invariants.
Import VideoCard.

(** Every stored progress record is a completed one with at least 80
    percent watched. *)
Definition store_ok (fs : Firestore.t) : Prop :=
  ∀ u v r, Firestore.stored fs u v = Some r →
    Firestore.completed r = true ∧ 80 ≤ Firestore.pct r.

(** A [saveVideoProgress] call made with a percent of at least 80,
    for one of the users [us] and a video among [vids]. *)
Definition call_ok (us : list (option User)) (vids : list string)
    (k : SaveCall) : Prop :=
  (80 # 1 <= call_pct k)%Q
  ∧ Some (mkUser (call_uid k)) ∈ us
  ∧ call_videoId k ∈ vids.

(** The videos an instance is given after its first render. *)
Definition videosOf (es : list Event) : list string :=
  omap (λ e, match e with Props v => Some v | _ => None end) es.

(** What [auth.currentUser] becomes after the first render. *)
Definition usersOf (es : list Event) : list (option User) :=
  omap (λ e, match e with Auth u => Some u | _ => None end) es.

(** What the renders and the live callbacks hold has been seen by the
    instance: a user that was signed in at some time, and a video it
    has been given; and so do the calls made so far. *)
Definition calls_inv (us : list (option User)) (vids : list string)
    (c : Config) : Prop :=
  videoId c ∈ vids
  ∧ user c ∈ us
  ∧ authUser c ∈ us
  ∧ (∀ id cl, timers c !! id = Some cl →
       cl_user cl ∈ us ∧ cl_videoId cl ∈ vids)
  ∧ Forall (call_ok us vids) (saveCalls c).

(** The id held in [pollRef] has been handed out already. *)
Definition fresh_inv (c : Config) : Prop :=
  ∀ id, pollRef c = Some id → (id < nextTimer c)%positive.

(** No video is called like a member of [Object.prototype]. *)
Definition plain (vids : list string) : Prop :=
  Forall (λ w, JS.inherited w = false) vids.

(** Completion is known everywhere: in the state, in every live
    callback, and every stored record is a completed one. *)
Definition settled (c : Config) : Prop :=
  completed c = true
  ∧ JS.inherited (videoId c) = false
  ∧ store_ok (fs c)
  ∧ ∀ id cl, timers c !! id = Some cl → cl_completed cl = true.

(** An unmounted instance without a live timer. *)
Definition quiet (c : Config) : Prop :=
  mounted c = false ∧ timers c = ∅.

(** The events whose effect after the unmount is decided by the
    component's code: the seed read settling late, a timer coming
    due, and what happens around the component. *)
Definition late (e : Event) : bool :=
  match e with
  | Load => true
  | Tick _ _ => true
  | Host _ _ => true
  | Auth _ => true
  | _ => false
  end.

End Invariants.

(** * Properties *)

(** ** Numbers *)

Section Numbers.

Lemma ge80_spec (x : Q) : JS.ge80 x = true ↔ (80 # 1 <= x)%Q.
Proof. unfold JS.ge80. apply Qle_bool_iff. Qed.

Lemma ge80_false (x : Q) : JS.ge80 x = false ↔ (x < 80 # 1)%Q.
Proof.
  rewrite <- not_true_iff_false, ge80_spec. split.
  - apply Qnot_le_lt.
  - apply Qlt_not_le.
Qed.


(** A positive number passes the guard [!duration || duration === 0]
    of the interval callback. *)
Lemma positive_duration (d : float) :
  JS.positive d = true → JS.falsyNumber d || JS.isZero d = false.
Proof.
  unfold JS.positive, JS.falsyNumber, JS.isZero.
  by destruct (Prim2SF d) as [| [|] | |[|] ? ?].
Qed.

(** The percent is the double the machine computes, not the rational
    quotient: at 115 of 200 seconds it is just below 57.5 and is shown
    as 57. *)
Lemma percentOf_is_double_arithmetic :
  JS.exact (VideoCard.percentOf 115 200)
  = Some (8092405580431359 # 140737488355328)%Q
  ∧ JS.round (JS.value (VideoCard.percentOf 115 200)) = 57
  ∧ JS.exact (VideoCard.percentOf 170 200) = Some (85 # 1)%Q
  ∧ JS.exact (VideoCard.percentOf 102 128) = Some (1275 # 16)%Q.
Proof. vm_compute. done. Qed.

End Numbers.

(** ** The store client *)

Section StoreClient.
Import Firestore UserProgress.

Lemma fieldNames_patch v (r : ProgressRecord) :
  forallb validFieldName (fieldNames (mkDoc (Some {[ v := r ]}) ∅))
  = validFieldName v.
Proof.
  unfold fieldNames. cbn [videoProgress otherFields].
  rewrite map_to_list_singleton, map_to_list_empty. cbn.
  by rewrite andb_true_r.
Qed.

(** [setDoc] with merge, on the data [saveVideoProgress] hands it. *)
Lemma setDocMerge_patch u v r fs :
  setDocMerge u (mkDoc (Some {[ v := r ]}) ∅) fs
  = if validFieldName v
    then if online fs
         then (JS.Fulfilled tt,
               mkStore (<[u := mergeDoc (mkDoc (Some {[ v := r ]}) ∅)
                                 (users fs !! u)]> (users fs))
                 (online fs)
                 (requests fs ++ [SetDoc u (mkDoc (Some {[ v := r ]}) ∅)]))
         else (JS.Rejected StoreUnavailable,
               logged (SetDoc u (mkDoc (Some {[ v := r ]}) ∅)) fs)
    else (JS.Rejected InvalidFieldName, fs).
Proof.
  unfold setDocMerge. rewrite fieldNames_patch.
  by destruct (validFieldName v).
Qed.

(** What merging one record into a document yields: the document
    with the record put under its key, all else as it was. *)
Lemma mergeDoc_patch v r old :
  mergeDoc (mkDoc (Some {[ v := r ]}) ∅) old
  = mkDoc (Some (<[v := r]> (default ∅ (old ≫= videoProgress))))
      (default ∅ (otherFields <$> old)).
Proof.
  destruct old as [[[vp|] other]|]; cbn.
  - by rewrite insert_union_singleton_l, (left_id_L ∅ (∪)).
  - by rewrite insert_empty, (left_id_L ∅ (∪)).
  - by rewrite insert_empty.
Qed.

Lemma stored_setDocMerge_eq u v r fs :
  validFieldName v = true →
  online fs = true →
  stored (snd (setDocMerge u (mkDoc (Some {[ v := r ]}) ∅) fs)) u v = Some r.
Proof.
  intros Hv Hon. rewrite setDocMerge_patch, Hv, Hon. unfold stored. cbn.
  rewrite lookup_insert_eq, mergeDoc_patch. cbn.
  apply lookup_insert_eq.
Qed.

Lemma stored_setDocMerge_ne u u' v v' r fs :
  v' ≠ v →
  stored (snd (setDocMerge u (mkDoc (Some {[ v := r ]}) ∅) fs)) u' v'
  = stored fs u' v'.
Proof.
  intros Hne. rewrite setDocMerge_patch. unfold stored.
  destruct (validFieldName v); [|done].
  destruct (online fs); cbn; [|done].
  destruct (decide (u = u')) as [->|Hu].
  - rewrite lookup_insert_eq, mergeDoc_patch. cbn.
    rewrite lookup_insert_ne by done.
    by destruct (users fs !! u') as [[[vp|] other]|].
  - by rewrite lookup_insert_ne.
Qed.

(** Top-level fields of a user document other than [videoProgress]
    survive a merge of a progress patch. *)
Lemma otherFields_setDocMerge u u' v r fs :
  otherFields <$> users (snd (setDocMerge u (mkDoc (Some {[ v := r ]}) ∅) fs)) !! u'
  = if decide (u = u' ∧ users fs !! u = None ∧ online fs = true
               ∧ validFieldName v = true)
    then Some ∅ else otherFields <$> users fs !! u'.
Proof.
  rewrite setDocMerge_patch. destruct (validFieldName v); cbn.
  - destruct (online fs); cbn.
    + destruct (decide (u = u')) as [->|Hu].
      * rewrite lookup_insert_eq, mergeDoc_patch.
        destruct (users fs !! u') as [[vp other]|]; cbn.
        -- by rewrite decide_False by (intros (_ & ? & _); congruence).
        -- by rewrite decide_True.
      * rewrite lookup_insert_ne by done.
        by rewrite decide_False by (intros (? & _); congruence).
    + by rewrite decide_False by (intros (_ & _ & ? & _); congruence).
  - by rewrite decide_False by (intros (_ & _ & _ & ?); congruence).
Qed.

Lemma truthy_Some uid u : JS.truthy uid = Some u → uid = Some u ∧ u ≠ ""%string.
Proof.
  unfold JS.truthy. destruct uid as [w|]; [|done].
  case_decide; [done|]. by intros [= ->].
Qed.

Lemma round_ge80 (p : Q) : JS.ge80 p = true → 80 ≤ JS.round p.
Proof.
  intros Hp%ge80_spec. unfold JS.round.
  change 80 with (Qfloor (80 # 1)). apply Qfloor_resp_le.
  assert (0 <= 1 # 2)%Q by (unfold Qle; simpl; lia). lra.
Qed.

(** When a call is fulfilled. *)
Lemma saveVideoProgress_fulfilled now uid videoId p fs :
  fst (saveVideoProgress now uid videoId p fs) = JS.Fulfilled tt
  ↔ (∃ u, JS.truthy uid = Some u)
    ∧ validFieldName videoId = true ∧ online fs = true.
Proof.
  unfold saveVideoProgress, progressPatch.
  destruct (JS.truthy uid) as [u|]; cbn.
  - rewrite setDocMerge_patch.
    destruct (validFieldName videoId), (online fs); cbn;
      (split; [intros ?|intros (_ & ? & ?)]); try done.
    split; [by eexists|done].
  - split; [done|]. by intros [[u ?] _].
Qed.




(** C7. Merge isolation: a [saveVideoProgress] call for video [B]
    leaves the record stored under any other video key [A], of the
    same user or of any other, exactly as it was (present with the
    same content, or absent), whether the call succeeds or fails; the
    user's other top-level fields stay as well. *)
Theorem saveVideoProgress_isolation now uid B p fs u A :
  A ≠ B →
  let fs' := snd (saveVideoProgress now uid B p fs) in
  stored fs' u A = stored fs u A
  ∧ (∀ rA, stored fs u A = Some rA → stored fs' u A = Some rA)
  ∧ (∀ d, users fs !! u = Some d →
       otherFields <$> users fs' !! u = Some (otherFields d)).
Proof.
  intros Hne. cbn zeta. unfold saveVideoProgress, progressPatch.
  destruct (JS.truthy uid) as [w|]; cbn [snd].
  - split; [by apply stored_setDocMerge_ne|].
    split.
    + intros rA HA. by rewrite stored_setDocMerge_ne.
    + intros d Hd. rewrite otherFields_setDocMerge.
      case_decide as Hc; [|by rewrite Hd].
      destruct Hc as (-> & Hnone & _). congruence.
  - split; [done|]. split; [done|]. intros d Hd. by rewrite Hd.
Qed.

Lemma saveVideoProgress_isolation_witness :
  let fs := snd (saveVideoProgress 1000 (Some "alice"%string) "A" (85 # 1)
                   Scenario.emptyStore) in
  stored (snd (saveVideoProgress 2000 (Some "alice"%string) "B" (90 # 1) fs))
    "alice" "A"
  = Some (mkRecord true 85 1000).
Proof.
  cbn zeta.
  destruct (saveVideoProgress_isolation 2000 (Some "alice"%string) "B"
              (90 # 1)
              (snd (saveVideoProgress 1000 (Some "alice"%string) "A"
                      (85 # 1) Scenario.emptyStore))
              "alice" "A") as (_ & Hkept & _).
  - discriminate.
  - apply Hkept. vm_compute. reflexivity.
Defined.

(** C10. [getUserProgress] called without a uid ([null], [undefined]
    or the empty string) is fulfilled with the empty mapping and sends
    no request, whatever the state of the store; and it is fulfilled
    with the empty mapping when the user's document exists but has no
    [videoProgress] field. *)
Theorem getUserProgress_empty fs :
  getUserProgress None fs = (JS.Fulfilled ∅, fs)
  ∧ getUserProgress (Some ""%string) fs = (JS.Fulfilled ∅, fs)
  ∧ (∀ u d, u ≠ ""%string → online fs = true →
       users fs !! u = Some d → videoProgress d = None →
       fst (getUserProgress (Some u) fs) = JS.Fulfilled ∅).
Proof.
  split; [done|]. split; [done|].
  intros u d Hu Hon Hd Hvp. unfold getUserProgress, JS.truthy.
  rewrite decide_False by done. unfold getDoc. rewrite Hon, Hd. cbn.
  by rewrite Hvp.
Qed.

Lemma getUserProgress_empty_witness :
  fst (getUserProgress (Some "alice"%string)
         (mkStore {[ "alice"%string := mkDoc None ∅ ]} true []))
  = JS.Fulfilled ∅.
Proof.
  destruct (getUserProgress_empty
              (mkStore {[ "alice"%string := mkDoc None ∅ ]} true []))
    as (_ & _ & Hdoc).
  apply (Hdoc "alice"%string (mkDoc None ∅)).
  - discriminate.
  - reflexivity.
  - vm_compute. reflexivity.
  - reflexivity.
Defined.

(** *** Further properties of the store client *)



(** Whatever the percent, the record a successful call stores is
    consistent: [completed] implies a stored [pct] of at least 80, and
    a stored [pct] below 80 implies not [completed]. *)
Theorem saveVideoProgress_record_consistent now uid u videoId p fs :
  JS.truthy uid = Some u →
  fst (saveVideoProgress now uid videoId p fs) = JS.Fulfilled tt →
  ∃ r, stored (snd (saveVideoProgress now uid videoId p fs)) u videoId = Some r
       ∧ (completed r = true → 80 ≤ pct r)
       ∧ (pct r < 80 → completed r = false).
Proof.
  intros Hu (_ & Hv & Hon)%saveVideoProgress_fulfilled.
  unfold saveVideoProgress, progressPatch. rewrite Hu.
  eexists. split; [by apply stored_setDocMerge_eq|]. cbn [completed pct].
  split.
  - apply round_ge80.
  - intros Hlt. destruct (JS.ge80 p) eqn:Hp; [|done].
    apply round_ge80 in Hp. lia.
Qed.

Lemma saveVideoProgress_record_consistent_witness :
  ∃ r, stored (snd (saveVideoProgress 1000 (Some "alice"%string) "vid"
                      (51 # 1) Scenario.emptyStore)) "alice" "vid" = Some r
       ∧ completed r = false.
Proof.
  destruct (saveVideoProgress_record_consistent 1000 (Some "alice"%string)
              "alice" "vid" (51 # 1) Scenario.emptyStore eq_refl eq_refl)
    as (r & Hr & _ & Hlow).
  exists r. split; [exact Hr|]. apply Hlow.
  vm_compute in Hr. injection Hr as <-. simpl. lia.
Defined.

(** Reading back: after a successful [saveVideoProgress], the mapping
    [getUserProgress] returns for that user holds the new record under
    the video and, under every other key, what it held before. *)
Theorem save_then_getUserProgress now uid u videoId p fs :
  JS.truthy uid = Some u →
  fst (saveVideoProgress now uid videoId p fs) = JS.Fulfilled tt →
  let fs' := snd (saveVideoProgress now uid videoId p fs) in
  ∃ m m0,
    fst (getUserProgress uid fs') = JS.Fulfilled m
    ∧ fst (getUserProgress uid fs) = JS.Fulfilled m0
    ∧ m !! videoId = Some (mkRecord (JS.ge80 p) (JS.round p) now)
    ∧ ∀ v, v ≠ videoId → m !! v = m0 !! v.
Proof.
  intros Hu (_ & Hv & Hon)%saveVideoProgress_fulfilled. cbn zeta.
  unfold saveVideoProgress, getUserProgress, progressPatch, getDoc.
  rewrite Hu, setDocMerge_patch, Hv, Hon. cbn.
  rewrite lookup_insert_eq, mergeDoc_patch. cbn.
  destruct (users fs !! u) as [[[vp|] other]|]; cbn; do 2 eexists;
    (split; [done|]); (split; [done|]);
    (split; [apply lookup_insert_eq|]);
    intros v Hne; by rewrite lookup_insert_ne.
Qed.

Lemma save_then_getUserProgress_witness :
  ∃ m, fst (getUserProgress (Some "alice"%string)
              (snd (saveVideoProgress 1000 (Some "alice"%string) "vid"
                      (85 # 1) Scenario.emptyStore))) = JS.Fulfilled m
       ∧ m !! "vid"%string = Some (mkRecord true 85 1000).
Proof.
  destruct (save_then_getUserProgress 1000 (Some "alice"%string) "alice"
              "vid" (85 # 1) Scenario.emptyStore eq_refl eq_refl)
    as (m & _ & Hm & _ & Hv & _).
  exists m. split; [exact Hm | exact Hv].
Defined.



Lemma mergeDoc_patch_twice v r1 r2 old :
  mergeDoc (mkDoc (Some {[ v := r2 ]}) ∅)
    (Some (mergeDoc (mkDoc (Some {[ v := r1 ]}) ∅) old))
  = mergeDoc (mkDoc (Some {[ v := r2 ]}) ∅) old.
Proof.
  rewrite !mergeDoc_patch. cbn. rewrite insert_insert_eq.
  by destruct old as [[[vp|] other]|].
Qed.


(** Last write wins: of two calls for the same user and video, the
    second leaves the documents exactly as if the first had never been
    made. *)
Theorem saveVideoProgress_overwrites n1 n2 uid videoId p1 p2 fs :
  users (snd (saveVideoProgress n2 uid videoId p2
                (snd (saveVideoProgress n1 uid videoId p1 fs))))
  = users (snd (saveVideoProgress n2 uid videoId p2 fs)).
Proof.
  unfold saveVideoProgress, progressPatch.
  destruct (JS.truthy uid) as [u|]; [|done].
  rewrite !setDocMerge_patch.
  destruct (validFieldName videoId); [|done].
  destruct (online fs) eqn:Hon; cbn -[JS.round JS.ge80]; rewrite ?Hon;
    cbn -[JS.round JS.ge80]; [|done].
  by rewrite lookup_insert_eq, insert_insert_eq, mergeDoc_patch_twice.
Qed.



End StoreClient.

(** ** The playback monitor *)

Section Monitor.
Import VideoCard Invariants.

Ltac unfold_monad :=
  unfold exec, load, pollCallback, onReady, onStateChange, cleanup, render,
    callSave, callGetUserProgress, setInterval, clearInterval,
    setVideoId, setUser, setAuthUser, setCompleted, setPct, setPlayerRef,
    setPollRef, setMounted, setHost, consoleLog, unhandledRejection,
    bind, get, ret.

Ltac red_monad :=
  cbn -[JS.round JS.ge80 JS.value JS.falsyNumber JS.isZero JS.getProperty
        percentOf UserProgress.saveVideoProgress
        UserProgress.getUserProgress] in *.

Ltac crush :=
  unfold_monad; red_monad;
  repeat (case_match; simplify_eq; red_monad); try done.

(** *** What each handler leaves alone *)

Lemma pollCallback_frame cl s c :
  let c' := exec (pollCallback cl s) c in
  timers c' = timers c ∧ pollRef c' = pollRef c ∧ mounted c' = mounted c
  ∧ user c' = user c ∧ videoId c' = videoId c ∧ playerRef c' = playerRef c
  ∧ nextTimer c' = nextTimer c ∧ unhandled c' = unhandled c.
Proof. crush. Qed.

Lemma onStateChange_frame data c :
  let c' := exec (onStateChange data) c in
  timers c' = timers c ∧ pollRef c' = pollRef c ∧ mounted c' = mounted c
  ∧ user c' = user c ∧ videoId c' = videoId c ∧ pct c' = pct c.
Proof. crush. Qed.

Lemma load_frame c :
  let c' := exec load c in
  timers c' = timers c ∧ pollRef c' = pollRef c ∧ mounted c' = mounted c
  ∧ user c' = user c ∧ videoId c' = videoId c ∧ saveCalls c' = saveCalls c
  ∧ unhandled c' = unhandled c.
Proof. crush. Qed.

Lemma onReady_frame target c :
  let c' := exec (onReady target) c in
  user c' = user c ∧ saveCalls c' = saveCalls c ∧ fs c' = fs c
  ∧ timers c'
    = <[nextTimer c := mkClosure (completed c) (user c) (videoId c)]>
        (match pollRef c with
         | Some id => delete id (timers c)
         | None => timers c
         end).
Proof. unfold_monad. by destruct (pollRef c). Qed.

Lemma cleanup_frame c :
  let c' := exec cleanup c in
  user c' = user c ∧ saveCalls c' = saveCalls c ∧ fs c' = fs c
  ∧ timers c'
    = match pollRef c with
      | Some id => delete id (timers c)
      | None => timers c
      end.
Proof. unfold_monad. by destruct (pollRef c). Qed.

Lemma render_frame v c :
  let c' := exec (render v) c in
  videoId c' = v ∧ user c' = authUser c ∧ authUser c' = authUser c
  ∧ timers c' = timers c ∧ pollRef c' = pollRef c ∧ mounted c' = mounted c
  ∧ completed c' = completed c ∧ pct c' = pct c
  ∧ saveCalls c' = saveCalls c ∧ fs c' = fs c
  ∧ nextTimer c' = nextTimer c.
Proof. done. Qed.

(** No handler of the component touches [auth.currentUser]. *)
Lemma handlers_authUser c :
  authUser (exec load c) = authUser c
  ∧ (∀ cl s, authUser (exec (pollCallback cl s) c) = authUser c)
  ∧ (∀ data, authUser (exec (onStateChange data) c) = authUser c)
  ∧ (∀ target, authUser (exec (onReady target) c) = authUser c)
  ∧ authUser (exec cleanup c) = authUser c.
Proof.
  split; [crush|]. split; [intros cl s; crush|].
  split; [intros data; crush|]. split; [intros target; crush|]. crush.
Qed.

(** No tick turns [completed] off. *)
Lemma pollCallback_sticky cl s c :
  completed c = true → completed (exec (pollCallback cl s) c) = true.
Proof. intros H. crush. Qed.

Lemma tick_sticky id s c :
  completed c = true → completed (step (Tick id s) c) = true.
Proof.
  intros H. cbn. destruct (timers c !! id); [|done].
  by apply pollCallback_sticky.
Qed.

(** A failed write on the tick path ends in the console, never among
    the unhandled rejections, and [completed] stays set. *)
Lemma tick_absorbs_write_failure id s c :
  let c' := step (Tick id s) c in
  unhandled c' = unhandled c ∧ (completed c = true → completed c' = true).
Proof.
  cbn zeta. split; [|apply tick_sticky].
  cbn. destruct (timers c !! id); [|done]. apply pollCallback_frame.
Qed.

(** *** One tick with a usable player *)

Lemma pollCallback_sampled cl s c target :
  playerRef c = Some target →
  hasGetDuration target = true →
  JS.falsyNumber (getDuration s) || JS.isZero (getDuration s) = false →
  let p := JS.value (percentOf (getCurrentTime s) (getDuration s)) in
  let c' := exec (pollCallback cl s) c in
  pct c' = JS.round p
  ∧ if JS.ge80 p && negb (cl_completed cl)
    then completed c' = true
         ∧ saveCalls c'
           = saveCalls c
             ++ match cl_user cl with
                | Some u => [mkCall (uid u) (cl_videoId cl) p]
                | None => []
                end
    else completed c' = completed c ∧ saveCalls c' = saveCalls c
         ∧ fs c' = fs c ∧ console c' = console c.
Proof.
  intros Hp Hfun Hdur. cbn zeta. unfold exec, pollCallback, bind, get.
  rewrite Hp, Hfun, Hdur. cbn [negb].
  destruct (JS.ge80 _ && negb _) eqn:Hfire; crush.
  by rewrite app_nil_r.
Qed.

(** *** The interval timers *)

Lemma timers_inv_clear c :
  timers_inv c →
  match pollRef c with
  | Some id => delete id (timers c) = ∅
  | None => timers c = ∅
  end.
Proof.
  intros Hin. destruct (pollRef c) as [id|] eqn:Hpoll.
  - apply map_eq. intros j. rewrite lookup_empty.
    destruct (decide (id = j)) as [->|Hne].
    + apply lookup_delete_eq.
    + rewrite lookup_delete_ne by done.
      destruct (timers c !! j) eqn:Hj; [|done].
      apply Hin in Hj. congruence.
  - apply map_eq. intros j. rewrite lookup_empty.
    destruct (timers c !! j) eqn:Hj; [|done].
    apply Hin in Hj. congruence.
Qed.

Lemma onReady_timers target c :
  timers_inv c →
  let c' := exec (onReady target) c in
  timers c' = {[ nextTimer c := mkClosure (completed c) (user c) (videoId c) ]}
  ∧ pollRef c' = Some (nextTimer c)
  ∧ mounted c' = mounted c ∧ videoId c' = videoId c ∧ user c' = user c
  ∧ completed c' = completed c.
Proof.
  intros Hinv. apply timers_inv_clear in Hinv.
  unfold_monad. red_monad. destruct (pollRef c); red_monad; by rewrite Hinv.
Qed.

Lemma cleanup_timers c :
  timers_inv c →
  timers (exec cleanup c) = ∅ ∧ mounted (exec cleanup c) = false.
Proof.
  intros Hinv. apply timers_inv_clear in Hinv.
  unfold_monad. red_monad. by destruct (pollRef c); red_monad.
Qed.

Lemma timers_inv_mount v u now store : timers_inv (mount v u now store).
Proof. intros id cl. cbn. by rewrite lookup_empty. Qed.

Lemma timers_inv_step e c : timers_inv c → timers_inv (step e c).
Proof.
  intros Hinv. destruct e as [|target|id s|data|v| |on now|au]; cbn [step].
  - destruct (load_frame c) as (Ht & Hp & _).
    unfold timers_inv. by rewrite Ht, Hp.
  - destruct (onReady_timers target c Hinv) as (Ht & Hp & _).
    unfold timers_inv. rewrite Ht, Hp.
    intros id cl [-> _]%lookup_singleton_Some. done.
  - destruct (timers c !! id) as [cl|]; [|done].
    destruct (pollCallback_frame cl s c) as (Ht & Hp & _).
    unfold timers_inv. by rewrite Ht, Hp.
  - destruct (onStateChange_frame data c) as (Ht & Hp & _).
    unfold timers_inv. by rewrite Ht, Hp.
  - exact Hinv.
  - destruct (cleanup_timers c Hinv) as [Ht _].
    unfold timers_inv. rewrite Ht. intros id cl. by rewrite lookup_empty.
  - exact Hinv.
  - exact Hinv.
Qed.

Lemma timers_inv_run es c : timers_inv c → timers_inv (run es c).
Proof.
  revert c. induction es as [|e es IH]; intros c Hinv; [done|].
  cbn. apply IH. by apply timers_inv_step.
Qed.

Lemma timers_inv_size c : timers_inv c → (size (timers c) ≤ 1)%nat.
Proof.
  intros Hinv. pose proof (timers_inv_clear c Hinv) as Hclear.
  destruct (pollRef c) as [id|].
  - destruct (timers c !! id) as [cl|] eqn:Hid.
    + rewrite <- (insert_delete_id (timers c) id cl Hid), Hclear.
      by rewrite insert_empty, map_size_singleton.
    + rewrite delete_id in Hclear by done. rewrite Hclear.
      rewrite map_size_empty. lia.
  - rewrite Hclear, map_size_empty. lia.
Qed.

(** *** Claims about the timer *)

(** C6. At any time of a mounted instance's life at most one interval
    timer is live; unmounting leaves none; an [onReady] leaves exactly
    one, the new one, whose callback holds the videoId of the current
    render; so after two content switches, each followed by the
    player's [onReady], the one live timer is tied to the latest
    content. *)
Theorem single_active_timer v u now store es :
  let c := run es (mount v u now store) in
  (size (timers c) ≤ 1)%nat
  ∧ timers (step Unmount c) = ∅
  ∧ (mounted c = true →
     ∀ target,
       timers (step (Ready target) c)
       = {[ nextTimer c := mkClosure (completed c) (user c) (videoId c) ]})
  ∧ (mounted c = true →
     ∀ v1 v2 p1 p2, ∃ id cl,
       let c' := run [Props v1; Ready p1; Props v2; Ready p2] c in
       timers c' = {[ id := cl ]} ∧ pollRef c' = Some id
       ∧ cl_videoId cl = v2 ∧ videoId c' = v2).
Proof.
  cbn zeta.
  pose proof (timers_inv_run es _ (timers_inv_mount v u now store)) as Hinv.
  set (c := run es (mount v u now store)) in *.
  split; [by apply timers_inv_size|]. split; [|split].
  - cbn [step]. by apply cleanup_timers.
  - intros _ target. cbn [step]. by apply onReady_timers.
  - intros _ v1 v2 p1 p2.
    set (c1 := step (Props v1) c).
    assert (timers_inv c1) as Hinv1 by (by apply timers_inv_step).
    set (c2 := step (Ready p1) c1).
    assert (timers_inv c2) as Hinv2 by (by apply timers_inv_step).
    set (c3 := step (Props v2) c2).
    assert (timers_inv c3 ∧ videoId c3 = v2) as (Hinv3 & Hv3).
    { split; [by apply timers_inv_step|done]. }
    destruct (onReady_timers p2 c3 Hinv3) as (Ht & Hp & _ & Hv & _).
    exists (nextTimer c3), (mkClosure (completed c3) (user c3) (videoId c3)).
    change (run [Props v1; Ready p1; Props v2; Ready p2] c)
      with (step (Ready p2) c3).
    cbn [step]. cbn zeta in *.
    rewrite Ht, Hp, Hv. done.
Qed.

Lemma single_active_timer_witness :
  timers (step (Ready Scenario.player) Scenario.signedIn)
  = {[ 1%positive := mkClosure false (Some Scenario.alice) "vid"%string ]}
  ∧ ∃ id cl,
      timers (run [Props "a"%string; Ready Scenario.player;
                   Props "b"%string; Ready Scenario.player]
                Scenario.signedIn) = {[ id := cl ]}
      ∧ cl_videoId cl = "b"%string.
Proof.
  destruct (single_active_timer "vid" (Some Scenario.alice) 1000
              Scenario.emptyStore []) as (_ & _ & Hready & Hswitch).
  split.
  - apply (Hready eq_refl Scenario.player).
  - destruct (Hswitch eq_refl "a"%string "b"%string Scenario.player
                Scenario.player) as (id & cl & Ht & _ & Hv & _).
    exists id, cl. split; [exact Ht | exact Hv].
Defined.

(** *** Claims about the completion write *)

(** While the callback's own [completed] is false, every tick at 80
    percent or more calls [saveVideoProgress], whatever the
    component's [completed] state has become in the meantime. *)
Lemma stale_completed_writes id cl s c target u :
  timers c !! id = Some cl →
  playerRef c = Some target →
  hasGetDuration target = true →
  JS.positive (getDuration s) = true →
  cl_completed cl = false →
  cl_user cl = Some u →
  (80 # 1 <= JS.value (percentOf (getCurrentTime s) (getDuration s)))%Q →
  saveCalls (step (Tick id s) c)
  = saveCalls c
    ++ [mkCall (uid u) (cl_videoId cl)
          (JS.value (percentOf (getCurrentTime s) (getDuration s)))].
Proof.
  intros Hid Hp Hfun Hdur Hcl Hu Hge. cbn [step]. rewrite Hid.
  destruct (pollCallback_sampled cl s c target Hp Hfun
              (positive_duration _ Hdur)) as [_ Hfire].
  apply ge80_spec in Hge. rewrite Hge, Hcl, Hu in Hfire. by apply Hfire.
Qed.

(** C1. The code at a viewing that crosses 80 percent twice: after
    the ticks at 25, 50 and 85 percent one write has been issued and
    [completed] is set; the viewer then seeks back to 5 percent and
    forward to 90 percent, and the tick at 90 percent issues a second
    [saveVideoProgress] call and a second [setDoc] request, although
    the completed state had been entered. *)
Theorem second_crossing_writes_again :
  let c3 := Scenario.watchedTo85 in
  let c5 := run [Tick Scenario.t1 (Scenario.at_ 10 200);
                 Tick Scenario.t1 (Scenario.at_ 180 200)] c3 in
  completed c3 = true
  ∧ JS.round ∘ call_pct <$> saveCalls c3 = [85]
  ∧ completed c5 = true
  ∧ JS.round ∘ call_pct <$> saveCalls c5 = [85; 90]
  ∧ length (Firestore.requests (fs c5))
    = S (length (Firestore.requests (fs c3))).
Proof. vm_compute. done. Qed.

(** C5. The code at a tick after completion: with [completed] set by
    the tick at 85 percent, a later tick at 90 percent keeps
    [completed] true and shows 90, and it also overwrites the stored
    record, so it does more than update the displayed [pct]. *)
Theorem tick_after_completion_rewrites_record :
  let c3 := Scenario.watchedTo85 in
  let c4 := run [Host true 2000; Tick Scenario.t1 (Scenario.at_ 180 200)] c3 in
  completed c3 = true
  ∧ Firestore.stored (fs c3) "alice" "vid"
    = Some (Firestore.mkRecord true 85 1000)
  ∧ completed c4 = true ∧ pct c4 = 90
  ∧ Firestore.stored (fs c4) "alice" "vid"
    = Some (Firestore.mkRecord true 90 2000)
  ∧ length (saveCalls c4) = 2%nat.
Proof. vm_compute. done. Qed.

(** C4. The code when the store rejects the write at the native "ended"
    signal: [completed] is set and stays set, [saveVideoProgress] is
    called, and its rejection is neither caught nor logged by the
    component: it ends among the unhandled rejections of the host.
    The same failure on the tick path is caught and logged. *)
Theorem ended_write_failure_escapes :
  let ended := run [Ready Scenario.player; Host false 2000; StateChange 0]
                 Scenario.signedIn in
  let ticked := run [Ready Scenario.player; Host false 2000;
                     Tick Scenario.t1 (Scenario.at_ 170 200)]
                  Scenario.signedIn in
  completed ended = true
  ∧ length (saveCalls ended) = 1%nat
  ∧ unhandled ended = [Firestore.StoreUnavailable]
  ∧ console ended = []
  ∧ completed ticked = true
  ∧ length (saveCalls ticked) = 1%nat
  ∧ unhandled ticked = []
  ∧ console ticked = [SaveProgressFailed Firestore.StoreUnavailable].
Proof. vm_compute. done. Qed.

(** *** Claims about one tick *)

(** C2, as stated, fails: at position 102 of a video lasting 128
    seconds the sampled percent is [Math.round(79.6875) = 80], which
    is at least 80, and [completed] is false, in the component and in
    the callback alike; yet the tick neither sets [completed] nor
    calls [saveVideoProgress]. *)
Lemma rounded_80_does_not_complete :
  let c := step (Ready Scenario.player) Scenario.signedIn in
  let s := Scenario.at_ 102 128 in
  let c' := step (Tick Scenario.t1 s) c in
  timers c !! Scenario.t1
  = Some (mkClosure false (Some Scenario.alice) "vid")
  ∧ completed c = false
  ∧ JS.exact (percentOf (getCurrentTime s) (getDuration s))
    = Some (1275 # 16)%Q
  ∧ JS.round (JS.value (percentOf (getCurrentTime s) (getDuration s))) = 80
  ∧ pct c' = 80
  ∧ completed c' = false
  ∧ saveCalls c' = []
  ∧ Firestore.requests (fs c') = [].
Proof. vm_compute. done. Qed.

(** C2, amended. On a tick of a live timer with an attached player
    reporting a positive duration, the displayed [pct] becomes
    [Math.round] of the double [(current / duration) * 100].  The
    completion decision is taken on that double [p], unrounded: below
    80 the tick neither sets [completed] nor writes; at 80 or more,
    with [completed] false in the component and in the callback, it
    sets [completed] and calls [saveVideoProgress] once with the
    unrounded [p] when the callback holds a user; at 80 or more, with
    [completed] true in both, it writes nothing. *)
Theorem tick_transition id cl s c target :
  timers c !! id = Some cl →
  playerRef c = Some target →
  hasGetDuration target = true →
  JS.positive (getDuration s) = true →
  let p := JS.value (percentOf (getCurrentTime s) (getDuration s)) in
  let c' := step (Tick id s) c in
  pct c' = JS.round p
  ∧ ((p < 80 # 1)%Q →
     completed c' = completed c ∧ saveCalls c' = saveCalls c
     ∧ fs c' = fs c)
  ∧ ((80 # 1 <= p)%Q → completed c = false → cl_completed cl = false →
     completed c' = true
     ∧ saveCalls c'
       = saveCalls c
         ++ match cl_user cl with
            | Some u => [mkCall (uid u) (cl_videoId cl) p]
            | None => []
            end)
  ∧ ((80 # 1 <= p)%Q → completed c = true → cl_completed cl = true →
     completed c' = true ∧ saveCalls c' = saveCalls c ∧ fs c' = fs c).
Proof.
  intros Hid Hp Hfun Hdur. cbn zeta. cbn [step]. rewrite Hid.
  destruct (pollCallback_sampled cl s c target Hp Hfun
              (positive_duration _ Hdur)) as [Hpct Hfire].
  cbn zeta in Hfire. split; [exact Hpct|]. split; [|split].
  - intros Hlt. apply ge80_false in Hlt. rewrite Hlt in Hfire.
    cbn in Hfire. tauto.
  - intros Hge _ Hcl. apply ge80_spec in Hge. rewrite Hge, Hcl in Hfire.
    exact Hfire.
  - intros Hge Hc Hcl. apply ge80_spec in Hge. rewrite Hge, Hcl in Hfire.
    cbn in Hfire. rewrite Hc in Hfire. tauto.
Qed.

Lemma tick_transition_witness :
  let c := step (Ready Scenario.player) Scenario.signedIn in
  let s := Scenario.at_ 170 200 in
  pct (step (Tick Scenario.t1 s) c) = 85
  ∧ completed (step (Tick Scenario.t1 s) c) = true
  ∧ saveCalls (step (Tick Scenario.t1 s) c)
    = [mkCall "alice" "vid"
         (JS.value (percentOf (getCurrentTime s) (getDuration s)))].
Proof.
  cbn zeta.
  destruct (tick_transition Scenario.t1
              (mkClosure false (Some Scenario.alice) "vid")
              (Scenario.at_ 170 200)
              (step (Ready Scenario.player) Scenario.signedIn)
              Scenario.player)
    as (Hpct & _ & Hfire & _).
  - vm_compute. reflexivity.
  - reflexivity.
  - reflexivity.
  - vm_compute. reflexivity.
  - destruct Hfire as [Hc Hcalls].
    + by vm_compute.
    + reflexivity.
    + reflexivity.
    + split; [exact Hpct|]. split; [exact Hc | exact Hcalls].
Defined.

(** *** Claims about the seed read *)

Lemma ticks_frame id ss c :
  let c' := run (Tick id <$> ss) c in
  timers c' = timers c ∧ playerRef c' = playerRef c
  ∧ unhandled c' = unhandled c.
Proof.
  revert c. induction ss as [|s ss IH]; intros c; [done|].
  cbn zeta. cbn [fmap list_fmap run foldl].
  destruct (IH (step (Tick id s) c)) as (Ht & Hp & Hu).
  unfold run in Ht, Hp, Hu. rewrite Ht, Hp, Hu.
  cbn [step]. destruct (timers c !! id) as [cl|]; [|done].
  destruct (pollCallback_frame cl s c) as (? & _ & _ & _ & _ & ? & _ & ?).
  done.
Qed.

(** C8. Fail-open seeding: when the seed read of a freshly mounted
    instance is rejected, the state stays at its defaults [pct = 0],
    [completed = false], the failure is logged with [console.warn]
    and reaches nobody else; and the monitor goes on working: once
    the player is ready, every tick with a positive duration, after
    any number of earlier ticks, shows [Math.round] of the sampled
    percent (the double [(current / duration) * 100]), leaves
    [completed] and the calls alone below 80 percent and, at 80
    percent or more, sets [completed] and calls
    [saveVideoProgress]. *)
Theorem fail_open_seeding v u now store err :
  fst (UserProgress.getUserProgress (Some (uid u)) store) = JS.Rejected err →
  let c1 := step Load (mount v (Some u) now store) in
  completed c1 = false ∧ pct c1 = 0
  ∧ unhandled c1 = [] ∧ console c1 = [LoadProgressError err]
  ∧ saveCalls c1 = []
  ∧ ∀ target,
      completed (step (Ready target) c1) = false
      ∧ saveCalls (step (Ready target) c1) = []
      ∧ ∀ ss s,
          hasGetDuration target = true →
          JS.positive (getDuration s) = true →
          let p := JS.value (percentOf (getCurrentTime s) (getDuration s)) in
          let c2 := run (Ready target :: (Tick 1%positive <$> ss)) c1 in
          let c3 := step (Tick 1%positive s) c2 in
          pct c3 = JS.round p
          ∧ unhandled c3 = []
          ∧ ((p < 80 # 1)%Q →
             completed c3 = completed c2 ∧ saveCalls c3 = saveCalls c2)
          ∧ ((80 # 1 <= p)%Q →
             completed c3 = true
             ∧ saveCalls c3 = saveCalls c2 ++ [mkCall (uid u) v p]).
Proof.
  intros Hrej. cbn zeta.
  assert (∃ fs', step Load (mount v (Some u) now store)
                 = mkConfig v (Some u) false 0 None None true ∅ 1%positive
                     now fs' [] [LoadProgressError err] [] (Some u))
    as [fs' ->].
  { cbn [step]. unfold exec, load, bind, get, callGetUserProgress, mount.
    red_monad. destruct (UserProgress.getUserProgress _ _) as [r fs'].
    red_monad. subst r. red_monad. by eexists. }
  cbn [completed pct unhandled console saveCalls]. do 5 (split; [done|]).
  intros target. split; [done|]. split; [done|].
  intros ss s Hfun Hdur.
  set (cl := mkClosure false (Some u) v).
  set (cR := mkConfig v (Some u) false 0 (Some target) (Some 1%positive) true
               {[ 1%positive := cl ]} 2%positive now fs'
               [] [LoadProgressError err] [] (Some u)).
  change (run (Ready target :: (Tick 1%positive <$> ss)) _)
    with (run (Tick 1%positive <$> ss) cR).
  destruct (ticks_frame 1%positive ss cR) as (Ht & Hp & Hu).
  set (c2 := run (Tick 1%positive <$> ss) cR) in *.
  cbn [timers playerRef unhandled cR] in Ht, Hp, Hu.
  assert (step (Tick 1%positive s) c2 = exec (pollCallback cl s) c2) as ->.
  { cbn [step]. by rewrite Ht, lookup_singleton_eq. }
  destruct (pollCallback_sampled cl s c2 target Hp Hfun
              (positive_duration _ Hdur)) as [Hpct Hfire].
  destruct (pollCallback_frame cl s c2) as (_ & _ & _ & _ & _ & _ & _ & Hun).
  cbn zeta in *. split; [exact Hpct|]. split; [by rewrite Hun|]. split.
  - intros Hlt. apply ge80_false in Hlt. rewrite Hlt in Hfire.
    cbn in Hfire. tauto.
  - intros Hge. apply ge80_spec in Hge. rewrite Hge in Hfire.
    cbn in Hfire. exact Hfire.
Qed.

Lemma fail_open_seeding_witness :
  let refusing := Firestore.mkStore ∅ false [] in
  let c1 := step Load (mount "vid" (Some Scenario.alice) 1000 refusing) in
  let c2 := run [Ready Scenario.player; Tick 1%positive (Scenario.at_ 50 200)]
              c1 in
  let c3 := step (Tick 1%positive (Scenario.at_ 170 200)) c2 in
  completed c1 = false ∧ pct c1 = 0
  ∧ console c1 = [LoadProgressError Firestore.StoreUnavailable]
  ∧ pct c3 = 85 ∧ completed c3 = true.
Proof.
  cbn zeta.
  destruct (fail_open_seeding "vid" Scenario.alice 1000
              (Firestore.mkStore ∅ false []) Firestore.StoreUnavailable)
    as (Hc & Hp & _ & Hlog & _ & Hready).
  - reflexivity.
  - destruct (Hready Scenario.player) as (_ & _ & Hticks).
    destruct (Hticks [Scenario.at_ 50 200] (Scenario.at_ 170 200))
      as (Hpct & _ & _ & Hfire).
    + reflexivity.
    + vm_compute. reflexivity.
    + destruct Hfire as [Hdone _].
      * by vm_compute.
      * split; [exact Hc|]. split; [exact Hp|]. split; [exact Hlog|].
        split; [exact Hpct | exact Hdone].
Defined.

(** *** Claims about a signed-out viewer *)

Lemma pollCallback_anonymous cl s c :
  cl_user cl = None →
  let c' := exec (pollCallback cl s) c in
  saveCalls c' = saveCalls c ∧ fs c' = fs c.
Proof. intros Hu. crush. Qed.

Lemma onStateChange_anonymous data c :
  user c = None →
  let c' := exec (onStateChange data) c in
  saveCalls c' = saveCalls c ∧ fs c' = fs c
  ∧ ((data =? 0) && negb (completed c) = true → completed c' = true).
Proof. intros Hu. crush. Qed.

Lemma load_anonymous c : user c = None → exec load c = c.
Proof. intros Hu. unfold exec, load, bind, get. by rewrite Hu. Qed.

(** The guards [if (user)] do skip the write when the [user] they
    read is [null]: the one the interval callback captured, on a
    tick, and the one of the latest render, at the "ended" signal.
    [completed] is set all the same. *)
Lemma null_user_skips_write id cl s c target :
  (timers c !! id = Some cl →
   cl_user cl = None →
   playerRef c = Some target →
   hasGetDuration target = true →
   JS.positive (getDuration s) = true →
   cl_completed cl = false →
   (80 # 1 <= JS.value (percentOf (getCurrentTime s) (getDuration s)))%Q →
   completed (step (Tick id s) c) = true
   ∧ saveCalls (step (Tick id s) c) = saveCalls c
   ∧ fs (step (Tick id s) c) = fs c)
  ∧ (user c = None → completed c = false →
     completed (step (StateChange 0) c) = true
     ∧ saveCalls (step (StateChange 0) c) = saveCalls c
     ∧ fs (step (StateChange 0) c) = fs c).
Proof.
  split.
  - intros Hid Hu Hp Hfun Hdur Hstale Hge. cbn [step]. rewrite Hid.
    destruct (pollCallback_anonymous cl s c Hu) as [Hs Hf].
    split; [|done].
    destruct (pollCallback_sampled cl s c target Hp Hfun
                (positive_duration _ Hdur)) as [_ Hfire].
    apply ge80_spec in Hge. rewrite Hge, Hstale in Hfire. by apply Hfire.
  - intros Hu Hc. cbn [step].
    destruct (onStateChange_anonymous 0 c Hu) as (Hs & Hf & Hdone).
    split; [|done]. apply Hdone. by rewrite Hc.
Qed.

(** C9. The code when the viewer signs out while the card is shown:
    the player got ready while alice was signed in, then
    [auth.currentUser] became [null], and the card was even rendered
    again, so that its [user] is [null].  The tick at 85 percent
    still sets [completed] and calls [saveVideoProgress] with alice's
    uid: the interval callback tests the [user] of the render in
    which [onReady] ran.  At the "ended" signal the handler tests the
    [user] of the latest render: without a render since the sign-out
    it calls [saveVideoProgress] as well, after one it does not. *)
Theorem signed_out_viewer_is_written :
  let c := run [Ready Scenario.player; Auth None; Props "vid"]
             Scenario.signedIn in
  let ticked := step (Tick Scenario.t1 (Scenario.at_ 170 200)) c in
  let ended := run [Auth None; StateChange 0] Scenario.signedIn in
  let rendered := run [Auth None; Props "vid"; StateChange 0]
                    Scenario.signedIn in
  authUser c = None ∧ user c = None ∧ completed c = false
  ∧ completed ticked = true
  ∧ saveCalls ticked = [mkCall "alice" "vid" (85 # 1)]
  ∧ length (Firestore.requests (fs ticked)) = 1%nat
  ∧ authUser ended = None
  ∧ completed ended = true
  ∧ saveCalls ended = [mkCall "alice" "vid" (100 # 1)]
  ∧ completed rendered = true
  ∧ saveCalls rendered = [].
Proof. vm_compute. done. Qed.

(** *** Further properties of single handlers *)

Lemma orZero_id n : orZero n = n.
Proof. unfold orZero. by case_decide. Qed.

Lemma getUserProgress_stored u fs m :
  u ≠ ""%string →
  fst (UserProgress.getUserProgress (Some u) fs) = JS.Fulfilled m →
  ∀ v, m !! v = Firestore.stored fs u v.
Proof.
  intros Hu. unfold UserProgress.getUserProgress, JS.truthy, Firestore.getDoc.
  rewrite decide_False by done. unfold Firestore.stored.
  destruct (Firestore.online fs); cbn; [|done].
  destruct (Firestore.users fs !! u) as [[[vp|] other]|]; cbn;
    intros [= <-] v; by rewrite ?lookup_empty.
Qed.

Lemma getUserProgress_users uid fs :
  Firestore.users (snd (UserProgress.getUserProgress uid fs))
  = Firestore.users fs.
Proof.
  unfold UserProgress.getUserProgress, Firestore.getDoc.
  destruct (JS.truthy uid); [|done].
  destruct (Firestore.online fs); cbn; [|done].
  by destruct (Firestore.users fs !! _) as [d|].
Qed.

(** What [load] does with the outcome of its read. *)
Lemma load_outcome c u :
  user c = Some u →
  let res := UserProgress.getUserProgress (Some (uid u)) (fs c) in
  let c' := exec load c in
  saveCalls c' = saveCalls c ∧ fs c' = snd res
  ∧ match fst res with
    | JS.Fulfilled m =>
        console c' = console c
        ∧ match JS.getProperty m (videoId c) with
          | JS.Own r =>
              if mounted c
              then completed c' = Firestore.completed r
                   ∧ pct c' = Firestore.pct r
              else completed c' = completed c ∧ pct c' = pct c
          | JS.Inherited =>
              if mounted c
              then completed c' = false ∧ pct c' = 0
              else completed c' = completed c ∧ pct c' = pct c
          | JS.Undefined => completed c' = completed c ∧ pct c' = pct c
          end
    | JS.Rejected err =>
        console c' = console c ++ [LoadProgressError err]
        ∧ completed c' = completed c ∧ pct c' = pct c
    end.
Proof.
  intros Hu. cbn zeta. unfold exec, load, bind, get, callGetUserProgress.
  rewrite Hu. red_monad.
  destruct (UserProgress.getUserProgress _ _) as [[m|err] fs']; red_monad;
    [|done].
  destruct (JS.getProperty m (videoId c)) as [r| |]; red_monad; [| |done].
  - destruct (mounted c); red_monad; [|done]. by rewrite orZero_id.
  - by destruct (mounted c).
Qed.











(** *** What a handler can do to the store and to the calls *)

Lemma pollCallback_effects cl s c :
  let c' := exec (pollCallback cl s) c in
  (saveCalls c' = saveCalls c ∧ fs c' = fs c)
  ∨ ∃ u p,
      cl_user cl = Some u ∧ JS.ge80 p = true
      ∧ saveCalls c' = saveCalls c ++ [mkCall (uid u) (cl_videoId cl) p]
      ∧ fs c' = snd (UserProgress.saveVideoProgress (clock c) (Some (uid u))
                       (cl_videoId cl) p (fs c)).
Proof.
  cbn zeta. unfold_monad. red_monad.
  repeat (case_match; simplify_eq; red_monad); try (by left);
    right;
    eexists _, (JS.value (percentOf (getCurrentTime s) (getDuration s)));
    match goal with
    | Hfire : _ && _ = true,
      Hsave : UserProgress.saveVideoProgress _ _ _ _ _ = _ |- _ =>
        apply andb_prop in Hfire as [Hge _]; by rewrite Hsave
    end.
Qed.

Lemma onStateChange_effects data c :
  let c' := exec (onStateChange data) c in
  (saveCalls c' = saveCalls c ∧ fs c' = fs c)
  ∨ ∃ u,
      user c = Some u
      ∧ saveCalls c' = saveCalls c ++ [mkCall (uid u) (videoId c) (100 # 1)]
      ∧ fs c' = snd (UserProgress.saveVideoProgress (clock c) (Some (uid u))
                       (videoId c) (100 # 1) (fs c)).
Proof.
  cbn zeta. unfold_monad. red_monad.
  repeat (case_match; simplify_eq; red_monad); try (by left);
    right; eexists; (split; [done|]);
    match goal with H : UserProgress.saveVideoProgress _ _ _ _ _ = _ |- _ =>
      by rewrite H end.
Qed.

Lemma load_users c :
  Firestore.users (fs (exec load c)) = Firestore.users (fs c).
Proof.
  destruct (user c) as [u|] eqn:Hu.
  - destruct (load_outcome c u Hu) as (_ & -> & _).
    apply getUserProgress_users.
  - by rewrite load_anonymous.
Qed.

Lemma onReady_videoId target c :
  videoId (exec (onReady target) c) = videoId c.
Proof. unfold_monad. by destruct (pollRef c). Qed.

Lemma cleanup_state c :
  let c' := exec cleanup c in
  videoId c' = videoId c ∧ completed c' = completed c ∧ pct c' = pct c
  ∧ pollRef c' = pollRef c ∧ nextTimer c' = nextTimer c.
Proof. unfold_monad. by destruct (pollRef c). Qed.

Lemma user_eta (u : User) : mkUser (uid u) = u.
Proof. by destruct u. Qed.

(** *** What the monitor ever asks of the store *)

Lemma ge80_100 : (80 # 1 <= 100 # 1)%Q.
Proof. unfold Qle. simpl. lia. Qed.

Lemma calls_inv_step us vids e c :
  (∀ v, e = Props v → v ∈ vids) →
  (∀ u, e = Auth u → u ∈ us) →
  calls_inv us vids c → calls_inv us vids (step e c).
Proof.
  intros Hprops Hauth (Hv & Hu & Ha & Hcl & Hcalls).
  destruct (handlers_authUser c) as (Hal & Hat & Has & Har & Hac).
  destruct e as [|target|id s|data|v| |on now|au]; cbn [step].
  - destruct (load_frame c) as (Ht & _ & _ & Hu' & Hvid & Hs & _).
    unfold calls_inv. by rewrite Ht, Hu', Hvid, Hs, Hal.
  - destruct (onReady_frame target c) as (Hu' & Hs & _ & Ht).
    unfold calls_inv. rewrite Hu', Hs, Ht, onReady_videoId, Har.
    do 3 (split; [done|]). split; [|done].
    intros id cl [[_ <-]|[_ Hold]]%lookup_insert_Some; [done|].
    destruct (pollRef c) as [old|]; [|by eapply Hcl].
    apply lookup_delete_Some in Hold as [_ Hold]. by eapply Hcl.
  - destruct (timers c !! id) as [cl|] eqn:Hid; [|done].
    destruct (pollCallback_frame cl s c) as (Ht & _ & _ & Hu' & Hvid & _).
    unfold calls_inv. rewrite Ht, Hu', Hvid, Hat. do 4 (split; [done|]).
    destruct (pollCallback_effects cl s c)
      as [[-> _]|(u & p & Hcu & Hge & -> & _)]; [done|].
    apply Forall_app. split; [done|]. apply Forall_singleton.
    destruct (Hcl id cl Hid) as [Hseen Hin].
    split; [by apply ge80_spec|]. cbn. split; [|done].
    by rewrite user_eta, <- Hcu.
  - destruct (onStateChange_frame data c) as (Ht & _ & _ & Hu' & Hvid & _).
    unfold calls_inv. rewrite Ht, Hu', Hvid, Has. do 4 (split; [done|]).
    destruct (onStateChange_effects data c)
      as [[-> _]|(u & Hcu & -> & _)]; [done|].
    apply Forall_app. split; [done|]. apply Forall_singleton.
    split; [exact ge80_100|]. cbn. split; [|done].
    by rewrite user_eta, <- Hcu.
  - split; [by apply Hprops|]. done.
  - destruct (cleanup_frame c) as (Hu' & Hs & _ & Ht).
    destruct (cleanup_state c) as (Hvid & _).
    unfold calls_inv. rewrite Hu', Hs, Ht, Hvid, Hac.
    do 3 (split; [done|]). split; [|done].
    intros id cl. destruct (pollRef c) as [old|]; [|by apply Hcl].
    intros [_ Hold]%lookup_delete_Some. by eapply Hcl.
  - done.
  - split; [done|]. split; [done|]. split; [by apply Hauth|done].
Qed.

Lemma videosOf_cons e es w :
  w ∈ videosOf (e :: es) ↔ e = Props w ∨ w ∈ videosOf es.
Proof.
  unfold videosOf. cbn [omap list_omap].
  destruct e; rewrite ?elem_of_cons; intuition congruence.
Qed.

Lemma usersOf_cons e es u :
  u ∈ usersOf (e :: es) ↔ e = Auth u ∨ u ∈ usersOf es.
Proof.
  unfold usersOf. cbn [omap list_omap].
  destruct e; rewrite ?elem_of_cons; intuition congruence.
Qed.

Lemma calls_inv_run us vids es c :
  (∀ w, w ∈ videosOf es → w ∈ vids) →
  (∀ u, u ∈ usersOf es → u ∈ us) →
  calls_inv us vids c → calls_inv us vids (run es c).
Proof.
  revert c. induction es as [|e es IH]; intros c Hvids Hus Hinv; [done|].
  change (calls_inv us vids (run es (step e c))). apply IH.
  - intros w Hw. apply Hvids, videosOf_cons. by right.
  - intros u Hu. apply Hus, usersOf_cons. by right.
  - apply calls_inv_step; [| |done].
    + intros w ->. apply Hvids, videosOf_cons. by left.
    + intros u ->. apply Hus, usersOf_cons. by left.
Qed.

Lemma calls_inv_mount v u now store us vids :
  v ∈ vids → u ∈ us → calls_inv us vids (mount v u now store).
Proof.
  intros Hv Hu. do 3 (split; [done|]). split; [|by apply Forall_nil].
  intros id cl. cbn. by rewrite lookup_empty.
Qed.

(** Over the whole life of an instance, every [saveVideoProgress] call
    it makes carries a percent of at least 80, the uid of a user it
    was rendered for (the one signed in at the mount, or one signed in
    later), and a video it has been given: its first one or one of a
    later render. *)
Theorem monitor_calls v u now store es :
  Forall (call_ok (u :: usersOf es) (v :: videosOf es))
    (saveCalls (run es (mount v u now store))).
Proof.
  assert (calls_inv (u :: usersOf es) (v :: videosOf es)
            (run es (mount v u now store))) as (_ & _ & _ & _ & Hcalls).
  { apply calls_inv_run.
    - intros w Hw. apply elem_of_cons. by right.
    - intros w Hw. apply elem_of_cons. by right.
    - apply calls_inv_mount; apply elem_of_cons; by left. }
  done.
Qed.

Lemma stored_save_frame now uid w p fs u' v' :
  uid ≠ Some u' ∨ w ≠ v' →
  Firestore.stored (snd (UserProgress.saveVideoProgress now uid w p fs)) u' v'
  = Firestore.stored fs u' v'.
Proof.
  intros Hne. unfold UserProgress.saveVideoProgress, UserProgress.progressPatch.
  destruct (JS.truthy uid) as [x|] eqn:Hx; [|done].
  destruct (decide (w = v')) as [->|Hw].
  - destruct Hne as [Hne|]; [|done].
    apply truthy_Some in Hx as [-> _].
    rewrite setDocMerge_patch. unfold Firestore.stored.
    destruct (Firestore.validFieldName v'); [|done].
    destruct (Firestore.online fs); cbn; [|done].
    rewrite lookup_insert_ne; [done|congruence].
  - by apply stored_setDocMerge_ne.
Qed.

Lemma stored_users fs fs' u v :
  Firestore.users fs = Firestore.users fs' →
  Firestore.stored fs u v = Firestore.stored fs' u v.
Proof. unfold Firestore.stored. by intros ->. Qed.




(** Nobody signed in, at the mount or later: no call is made. *)
Lemma never_signed_in_no_calls v now store es :
  Forall (λ u, u = None) (usersOf es) →
  saveCalls (run es (mount v None now store)) = [].
Proof.
  intros Hnone.
  assert (calls_inv (None :: usersOf es) (v :: videosOf es)
            (run es (mount v None now store))) as (_ & _ & _ & _ & Hcalls).
  { apply calls_inv_run.
    - intros w Hw. apply elem_of_cons. by right.
    - intros w Hw. apply elem_of_cons. by right.
    - apply calls_inv_mount; apply elem_of_cons; by left. }
  destruct (saveCalls _) as [|k ks]; [done|].
  apply Forall_cons in Hcalls as [(_ & Hin & _) _].
  apply elem_of_cons in Hin as [?|Hin]; [done|].
  rewrite Forall_forall in Hnone. by apply Hnone in Hin.
Qed.

(** *** Only completions are persisted, and completion sticks *)

Lemma save_store_ok now uid w p fs :
  store_ok fs → JS.ge80 p = true →
  store_ok (snd (UserProgress.saveVideoProgress now uid w p fs)).
Proof.
  intros Hok Hge u' v' r.
  destruct (decide (uid = Some u' ∧ w = v')) as [[-> ->]|Hne].
  - unfold UserProgress.saveVideoProgress, UserProgress.progressPatch.
    destruct (JS.truthy (Some u')) as [x|] eqn:Hx; [|by apply Hok].
    apply truthy_Some in Hx as [[= <-] _].
    destruct (Firestore.validFieldName v') eqn:Hv,
             (Firestore.online fs) eqn:Hon.
    + rewrite stored_setDocMerge_eq by done. intros [= <-]. cbn.
      split; [done|]. by apply round_ge80.
    + rewrite setDocMerge_patch, Hv, Hon. by apply Hok.
    + rewrite setDocMerge_patch, Hv. by apply Hok.
    + rewrite setDocMerge_patch, Hv. by apply Hok.
  - rewrite stored_save_frame; [by apply Hok|].
    destruct (decide (uid = Some u')) as [Hu|Hu]; [right|by left].
    intros Hw. by apply Hne.
Qed.

Lemma ge80_100_true : JS.ge80 (100 # 1) = true.
Proof. reflexivity. Qed.

Lemma store_ok_users fs fs' :
  Firestore.users fs = Firestore.users fs' → store_ok fs → store_ok fs'.
Proof.
  intros Hu Hok u v r. rewrite <- (stored_users fs fs' u v Hu). apply Hok.
Qed.

Lemma store_ok_step e c : store_ok (fs c) → store_ok (fs (step e c)).
Proof.
  intros Hok. destruct e as [|target|id s|data|v| |on now|au]; cbn [step].
  - eapply store_ok_users; [|done]. by rewrite load_users.
  - by destruct (onReady_frame target c) as (_ & _ & -> & _).
  - destruct (timers c !! id) as [cl|]; [|done].
    destruct (pollCallback_effects cl s c)
      as [[_ ->]|(u & p & _ & Hge & _ & ->)]; [done|].
    by apply save_store_ok.
  - destruct (onStateChange_effects data c)
      as [[_ ->]|(u & _ & _ & ->)]; [done|].
    apply save_store_ok; [done|]. exact ge80_100_true.
  - done.
  - by destruct (cleanup_frame c) as (_ & _ & -> & _).
  - by eapply store_ok_users.
  - done.
Qed.

Lemma store_ok_run es c : store_ok (fs c) → store_ok (fs (run es c)).
Proof.
  revert c. induction es as [|e es IH]; intros c Hok; [done|].
  change (store_ok (fs (run es (step e c)))). by apply IH, store_ok_step.
Qed.

(** The monitor persists completions only: if every record in the
    store is a completed one with at least 80 percent, this is still so
    after any sequence of events of an instance.  In particular no
    tick, rewind included, ever stores [completed: false] or a percent
    below 80. *)
Theorem monitor_keeps_store_ok v u now store es :
  store_ok store → store_ok (fs (run es (mount v u now store))).
Proof. intros Hok. apply store_ok_run. exact Hok. Qed.

Lemma monitor_keeps_store_ok_witness : store_ok (fs Scenario.watchedTo85).
Proof.
  apply (monitor_keeps_store_ok "vid" (Some Scenario.alice) 1000
           Scenario.emptyStore
           [Load; Ready Scenario.player;
            Tick Scenario.t1 (Scenario.at_ 50 200);
            Tick Scenario.t1 (Scenario.at_ 100 200);
            Tick Scenario.t1 (Scenario.at_ 170 200)]).
  intros u v r Hst. vm_compute in Hst. discriminate Hst.
Defined.

Lemma getUserProgress_ok uid fs m v r :
  store_ok fs →
  fst (UserProgress.getUserProgress uid fs) = JS.Fulfilled m →
  m !! v = Some r →
  Firestore.completed r = true.
Proof.
  intros Hok Hm Hv. destruct (JS.truthy uid) as [u|] eqn:Hu.
  - apply truthy_Some in Hu as [-> Hne].
    rewrite (getUserProgress_stored _ _ _ Hne Hm) in Hv. by eapply Hok.
  - revert Hm. unfold UserProgress.getUserProgress. rewrite Hu.
    intros [= <-]. by rewrite lookup_empty in Hv.
Qed.

Lemma onReady_completed target c :
  completed (exec (onReady target) c) = completed c.
Proof. unfold_monad. by destruct (pollRef c). Qed.

(** The seed read of a video that is not called like a member of
    [Object.prototype] keeps [completed] when the store holds
    completed records only. *)
Lemma load_completed c :
  store_ok (fs c) → JS.inherited (videoId c) = false →
  completed c = true → completed (exec load c) = true.
Proof.
  intros Hok Hplain Hc.
  destruct (user c) as [u|] eqn:Hu; [|by rewrite load_anonymous].
  destruct (load_outcome c u Hu) as (_ & _ & Hout).
  destruct (fst (UserProgress.getUserProgress _ _)) as [m|err] eqn:Hres.
  - destruct Hout as [_ Hout]. unfold JS.getProperty in Hout.
    rewrite Hplain in Hout.
    destruct (m !! videoId c) as [r|] eqn:Hr; [|by rewrite (proj1 Hout)].
    destruct (mounted c); [|by rewrite (proj1 Hout)].
    rewrite (proj1 Hout). by eapply getUserProgress_ok.
  - destruct Hout as (_ & -> & _). done.
Qed.

Lemma completed_step e c :
  store_ok (fs c) → JS.inherited (videoId c) = false →
  completed c = true → completed (step e c) = true.
Proof.
  intros Hok Hplain Hc.
  destruct e as [|target|id s|data|v| |on now|au]; cbn [step].
  - by apply load_completed.
  - by rewrite onReady_completed.
  - by apply tick_sticky.
  - unfold exec, onStateChange, bind, get. by rewrite Hc, andb_false_r.
  - done.
  - by destruct (cleanup_state c) as (_ & -> & _).
  - done.
  - done.
Qed.

Lemma videoId_step e c :
  videoId (step e c) = videoId c ∨ e = Props (videoId (step e c)).
Proof.
  destruct e as [|target|id s|data|v| |on now|au]; cbn [step].
  - left. apply load_frame.
  - left. apply onReady_videoId.
  - left. destruct (timers c !! id); [|done]. apply pollCallback_frame.
  - left. apply onStateChange_frame.
  - by right.
  - left. apply cleanup_state.
  - by left.
  - by left.
Qed.

Lemma plain_step vids e c :
  plain vids → (∀ w, e = Props w → w ∈ vids) →
  JS.inherited (videoId c) = false →
  JS.inherited (videoId (step e c)) = false.
Proof.
  intros Hplain Hin Hc. destruct (videoId_step e c) as [->|He]; [done|].
  unfold plain in Hplain. rewrite Forall_forall in Hplain.
  by apply Hplain, Hin.
Qed.

(** Completion, once known to the state, stays through every event. *)
Lemma completed_run vids es c :
  plain vids → (∀ w, w ∈ videosOf es → w ∈ vids) →
  store_ok (fs c) → JS.inherited (videoId c) = false →
  completed c = true →
  completed (run es c) = true
  ∧ store_ok (fs (run es c))
  ∧ JS.inherited (videoId (run es c)) = false.
Proof.
  intros Hplain. revert c.
  induction es as [|e es IH]; intros c Hvids Hok Hv Hc; [done|].
  change (run (e :: es) c) with (run es (step e c)). apply IH.
  - intros w Hw. apply Hvids, videosOf_cons. by right.
  - by apply store_ok_step.
  - apply (plain_step vids); [done| |done].
    intros w ->. apply Hvids, videosOf_cons. by left.
  - by apply completed_step.
Qed.

Lemma plain_run vids es c :
  plain vids → (∀ w, w ∈ videosOf es → w ∈ vids) →
  JS.inherited (videoId c) = false →
  JS.inherited (videoId (run es c)) = false.
Proof.
  intros Hplain. revert c.
  induction es as [|e es IH]; intros c Hvids Hv; [done|].
  change (run (e :: es) c) with (run es (step e c)). apply IH.
  - intros w Hw. apply Hvids, videosOf_cons. by right.
  - apply (plain_step vids); [done| |done].
    intros w ->. apply Hvids, videosOf_cons. by left.
Qed.

Lemma videosOf_app es es' : videosOf (es ++ es') = videosOf es ++ videosOf es'.
Proof. unfold videosOf. apply omap_app. Qed.

Lemma plain_head v vids : plain (v :: vids) → JS.inherited v = false.
Proof. intros H. by apply Forall_cons in H as [? _]. Qed.

(** Completion sticks for good: when the store holds completed records
    only and no video is called like a member of [Object.prototype],
    an instance whose [completed] has become true keeps it true
    through every later event, the seed read settling late
    included. *)
Theorem completed_sticks v u now store es es' :
  store_ok store →
  plain (v :: videosOf (es ++ es')) →
  completed (run es (mount v u now store)) = true →
  completed (run (es ++ es') (mount v u now store)) = true.
Proof.
  intros Hok Hplain Hc. unfold run. rewrite foldl_app.
  fold (run es (mount v u now store)).
  fold (run es' (run es (mount v u now store))).
  rewrite videosOf_app in Hplain.
  apply (completed_run (v :: videosOf es ++ videosOf es')); try done.
  - intros w Hw. apply elem_of_cons. right. apply elem_of_app. by right.
  - by apply store_ok_run.
  - apply (plain_run (v :: videosOf es ++ videosOf es')); [done| |].
    + intros w Hw. apply elem_of_cons. right. apply elem_of_app. by left.
    + by apply plain_head in Hplain.
Qed.

Lemma completed_sticks_witness :
  completed
    (run ([Ready Scenario.player; Tick Scenario.t1 (Scenario.at_ 170 200)]
          ++ [Tick Scenario.t1 (Scenario.at_ 10 200); Load; StateChange 2])
       Scenario.signedIn) = true.
Proof.
  apply (completed_sticks "vid" (Some Scenario.alice) 1000 Scenario.emptyStore).
  - intros u v r Hst. vm_compute in Hst. discriminate Hst.
  - apply Forall_cons. split; [reflexivity|]. apply Forall_nil_2.
  - vm_compute. reflexivity.
Defined.

(** Once the player has reported the end of the video, no later
    state change of the player does anything, and
    a second "ended" signal issues no second write: whatever happened
    in between, the handler finds [completed] set and returns (the
    store holding completed records only, and no video being called
    like a member of [Object.prototype]).  Signals other than "ended"
    never do anything. *)
Theorem ended_once v u now store es es' data :
  store_ok store →
  plain (v :: videosOf (es ++ es')) →
  let c := run (es ++ StateChange 0 :: es') (mount v u now store) in
  completed c = true
  ∧ step (StateChange data) c = c
  ∧ ∀ c1, data ≠ 0 → step (StateChange data) c1 = c1.
Proof.
  intros Hok Hplain. cbn zeta.
  assert (∀ c1, completed c1 = true → exec (onStateChange data) c1 = c1)
    as Hnoop.
  { intros c1 Hc. unfold exec, onStateChange, bind, get.
    by rewrite Hc, andb_false_r. }
  rewrite videosOf_app in Hplain.
  assert (completed
            (run (es ++ StateChange 0 :: es') (mount v u now store)) = true)
    as Hc.
  { unfold run. rewrite foldl_app. cbn [foldl].
    fold (run es (mount v u now store)).
    set (c0 := run es (mount v u now store)) in *.
    fold (run es' (step (StateChange 0) c0)).
    destruct (onStateChange_frame 0 c0) as (_ & _ & _ & _ & Hvid & _).
    apply (completed_run (v :: videosOf es ++ videosOf es')); try done.
    - intros w Hw. apply elem_of_cons. right. apply elem_of_app. by right.
    - apply store_ok_step. by apply store_ok_run.
    - cbn [step]. rewrite Hvid.
      apply (plain_run (v :: videosOf es ++ videosOf es')); [done| |].
      + intros w Hw. apply elem_of_cons. right. apply elem_of_app. by left.
      + by apply plain_head in Hplain.
    - cbn [step]. unfold exec, onStateChange, bind, get.
      destruct (completed c0) eqn:Hc0; crush. }
  split; [exact Hc|]. split.
  - cbn [step]. by apply Hnoop.
  - intros c1 Hd. cbn [step]. unfold exec, onStateChange, bind, get.
    by apply Z.eqb_neq in Hd as ->.
Qed.

Lemma ended_once_witness :
  let c := run ([Ready Scenario.player]
                ++ StateChange 0
                   :: [Tick Scenario.t1 (Scenario.at_ 10 200); Load;
                       Host true 2000])
             Scenario.signedIn in
  step (StateChange 0) c = c ∧ length (saveCalls c) = 1%nat.
Proof.
  cbn zeta.
  destruct (ended_once "vid" (Some Scenario.alice) 1000 Scenario.emptyStore
              [Ready Scenario.player]
              [Tick Scenario.t1 (Scenario.at_ 10 200); Load; Host true 2000]
              0) as (_ & Hvoid & _).
  - intros u v r Hst. vm_compute in Hst. discriminate Hst.
  - apply Forall_cons. split; [reflexivity|]. apply Forall_nil_2.
  - split; [exact Hvoid|]. vm_compute. reflexivity.
Defined.

(** *** After the unmount *)

Lemma load_unmounted c :
  mounted c = false →
  completed (exec load c) = completed c ∧ pct (exec load c) = pct c.
Proof.
  intros Hm. destruct (user c) as [u|] eqn:Hu; [|by rewrite load_anonymous].
  destruct (load_outcome c u Hu) as (_ & _ & Hout). rewrite Hm in Hout.
  destruct (fst (UserProgress.getUserProgress _ _)) as [m|err].
  - destruct Hout as [_ Hout]. by destruct (JS.getProperty m (videoId c)).
  - by destruct Hout as (_ & ? & ?).
Qed.

Lemma quiet_step e c :
  late e = true →
  quiet c →
  quiet (step e c)
  ∧ completed (step e c) = completed c ∧ pct (step e c) = pct c
  ∧ saveCalls (step e c) = saveCalls c
  ∧ Firestore.users (fs (step e c)) = Firestore.users (fs c).
Proof.
  intros Hlate [Hm Ht].
  destruct e as [|target|id s|data|v| |on now|au]; try done; cbn [step];
    rewrite ?Ht, ?lookup_empty; try done.
  destruct (load_frame c) as (Ht' & _ & Hm' & _ & _ & Hs & _).
  destruct (load_unmounted c Hm) as [Hc Hp].
  unfold quiet. by rewrite Ht', Hm', Hs, Hc, Hp, load_users.
Qed.

(** After the unmount the component's code does nothing any more:
    when the seed read settles late its [mounted] test keeps it from
    setting the state, and no timer is left to come due, so that
    whatever of these still happens (changes of the store, the clock
    and the signed-in user included), no [saveVideoProgress] call is
    made, no document changes, and the state shown last is never
    touched again. *)
Theorem nothing_after_unmount v u now store es es' :
  Forall (λ e, late e = true) es' →
  let c := step Unmount (run es (mount v u now store)) in
  let c' := run es' c in
  timers c' = ∅
  ∧ saveCalls c' = saveCalls c
  ∧ Firestore.users (fs c') = Firestore.users (fs c)
  ∧ completed c' = completed c ∧ pct c' = pct c.
Proof.
  intros Hlate. cbn zeta.
  pose proof (timers_inv_run es _ (timers_inv_mount v u now store)) as Hinv.
  set (c0 := run es (mount v u now store)) in *.
  assert (quiet (step Unmount c0)) as Hq.
  { cbn [step]. destruct (cleanup_timers c0 Hinv). by split. }
  set (c := step Unmount c0) in *. clearbody c. clear Hinv.
  revert c Hq. induction es' as [|e es' IH]; intros c Hq; [by destruct Hq|].
  apply Forall_cons in Hlate as [He Hlate].
  change (run (e :: es') c) with (run es' (step e c)).
  destruct (quiet_step e c He Hq) as (Hq' & Hc & Hp & Hs & Hu).
  destruct (IH Hlate _ Hq') as (-> & -> & -> & -> & ->). done.
Qed.

Lemma nothing_after_unmount_witness :
  let c := step Unmount
             (run [Ready Scenario.player] Scenario.signedIn) in
  let c' := run [Tick Scenario.t1 (Scenario.at_ 170 200); Load;
                 Host true 2000; Auth None] c in
  saveCalls c' = [] ∧ completed c' = false ∧ pct c' = 0.
Proof.
  cbn zeta.
  destruct (nothing_after_unmount "vid" (Some Scenario.alice) 1000
              Scenario.emptyStore [Ready Scenario.player]
              [Tick Scenario.t1 (Scenario.at_ 170 200); Load;
               Host true 2000; Auth None])
    as (_ & Hs & _ & Hc & Hp).
  - repeat (apply Forall_cons; split; [reflexivity|]). apply Forall_nil_2.
  - split; [exact Hs|]. split; [exact Hc | exact Hp].
Defined.

(** *** Replaced timers *)

Lemma fresh_inv_step e c : fresh_inv c → fresh_inv (step e c).
Proof.
  intros Hf. destruct e as [|target|id s|data|v| |on now|au]; cbn [step].
  - destruct (load_frame c) as (_ & Hp & _). unfold fresh_inv.
    assert (nextTimer (exec load c) = nextTimer c) as -> by crush.
    by rewrite Hp.
  - unfold fresh_inv. unfold_monad. red_monad.
    destruct (pollRef c); red_monad; intros id [= <-]; lia.
  - destruct (timers c !! id) as [cl|]; [|done].
    destruct (pollCallback_frame cl s c) as (_ & Hp & _ & _ & _ & _ & Hn & _).
    unfold fresh_inv. by rewrite Hp, Hn.
  - destruct (onStateChange_frame data c) as (_ & Hp & _).
    unfold fresh_inv. rewrite Hp.
    assert (nextTimer (exec (onStateChange data) c) = nextTimer c) as ->
      by crush.
    done.
  - done.
  - destruct (cleanup_state c) as (_ & _ & _ & Hp & Hn).
    unfold fresh_inv. by rewrite Hp, Hn.
  - done.
  - done.
Qed.

Lemma fresh_inv_run es c : fresh_inv c → fresh_inv (run es c).
Proof.
  revert c. induction es as [|e es IH]; intros c Hf; [done|].
  change (fresh_inv (run es (step e c))). by apply IH, fresh_inv_step.
Qed.

(** Only the timer held in [pollRef] can fire: a tick of any other
    timer id changes nothing.  In particular, once [onReady] has run
    again, the timer it replaced never fires again. *)
Theorem replaced_timer_is_dead v u now store es :
  let c := run es (mount v u now store) in
  (∀ id s, pollRef c ≠ Some id → step (Tick id s) c = c)
  ∧ (∀ id target s,
       mounted c = true → pollRef c = Some id →
       step (Tick id s) (step (Ready target) c) = step (Ready target) c).
Proof.
  cbn zeta.
  pose proof (timers_inv_run es _ (timers_inv_mount v u now store)) as Hinv.
  assert (fresh_inv (run es (mount v u now store))) as Hfresh.
  { apply fresh_inv_run. by intros id. }
  set (c := run es (mount v u now store)) in *. split.
  - intros id s Hne. cbn [step].
    destruct (timers c !! id) as [cl|] eqn:Hid; [|done].
    by apply Hinv in Hid.
  - intros id target s _ Hp. cbn [step].
    destruct (onReady_timers target c Hinv) as (-> & _).
    rewrite lookup_singleton_ne; [done|].
    apply Hfresh in Hp. lia.
Qed.

Lemma replaced_timer_is_dead_witness :
  let c := run [Ready Scenario.player; Ready Scenario.player] Scenario.signedIn in
  step (Tick Scenario.t1 (Scenario.at_ 170 200)) c = c.
Proof.
  cbn zeta.
  destruct (replaced_timer_is_dead "vid" (Some Scenario.alice) 1000
              Scenario.emptyStore [Ready Scenario.player]) as [_ Hdead].
  apply (Hdead Scenario.t1 Scenario.player (Scenario.at_ 170 200)).
  - reflexivity.
  - reflexivity.
Defined.

(** *** A video already completed when the player gets ready *)

Lemma pollCallback_settled cl s c :
  cl_completed cl = true →
  let c' := exec (pollCallback cl s) c in
  saveCalls c' = saveCalls c ∧ fs c' = fs c.
Proof.
  intros Hcl. unfold_monad. red_monad. rewrite Hcl, andb_false_r.
  repeat (case_match; simplify_eq; red_monad); done.
Qed.

Lemma settled_step e c :
  (∀ w, e = Props w → JS.inherited w = false) →
  settled c →
  settled (step e c)
  ∧ saveCalls (step e c) = saveCalls c
  ∧ Firestore.users (fs (step e c)) = Firestore.users (fs c).
Proof.
  intros Hplain (Hc & Hv & Hok & Hcl).
  pose proof (completed_step e c Hok Hv Hc) as Hc'.
  pose proof (store_ok_step e c Hok) as Hok'.
  assert (JS.inherited (videoId (step e c)) = false) as Hv'.
  { destruct (videoId_step e c) as [->|He]; [done|]. by apply Hplain. }
  destruct e as [|target|id s|data|v| |on now|au]; cbn [step] in *.
  - destruct (load_frame c) as (Ht & _ & _ & _ & _ & Hs & _).
    split; [|by rewrite Hs, load_users].
    do 3 (split; [done|]). by rewrite Ht.
  - destruct (onReady_frame target c) as (_ & Hs & Hfs & Ht).
    split; [|by rewrite Hs, Hfs].
    do 3 (split; [done|]). rewrite Ht.
    intros id cl [[_ <-]|[_ Hold]]%lookup_insert_Some; [done|].
    destruct (pollRef c) as [old|]; [|by eapply Hcl].
    apply lookup_delete_Some in Hold as [_ Hold]. by eapply Hcl.
  - destruct (timers c !! id) as [cl|] eqn:Hid; [|done].
    destruct (pollCallback_settled cl s c (Hcl _ _ Hid)) as [Hs Hfs].
    destruct (pollCallback_frame cl s c) as (Ht & _).
    split; [|by rewrite Hs, Hfs].
    do 3 (split; [done|]). by rewrite Ht.
  - assert (exec (onStateChange data) c = c) as ->; [|done].
    unfold exec, onStateChange, bind, get. by rewrite Hc, andb_false_r.
  - split; [|done]. do 3 (split; [done|]). exact Hcl.
  - destruct (cleanup_frame c) as (_ & Hs & Hfs & Ht).
    split; [|by rewrite Hs, Hfs].
    do 3 (split; [done|]). rewrite Ht.
    intros id cl. destruct (pollRef c) as [old|]; [|by apply Hcl].
    intros [_ Hold]%lookup_delete_Some. by eapply Hcl.
  - done.
  - done.
Qed.

(** A video known to be completed when the player gets ready is never
    written again: if the store holds completed records only, no video
    is called like a member of [Object.prototype], and [completed] is
    true when [onReady] runs (seeded from the store, or set by an
    earlier transition), then whatever follows (ticks at any percent,
    "ended" signals, seed reads, further [onReady] calls) the
    instance makes no [saveVideoProgress] call and changes no
    document. *)
Theorem no_writes_once_ready_after_completion v u now store es target es' :
  store_ok store →
  plain (v :: videosOf (es ++ es')) →
  let c := run es (mount v u now store) in
  completed c = true →
  saveCalls (run (Ready target :: es') c) = saveCalls c
  ∧ Firestore.users (fs (run (Ready target :: es') c)) = Firestore.users (fs c)
  ∧ completed (run (Ready target :: es') c) = true.
Proof.
  intros Hok Hplain. cbn zeta. intros Hc.
  rewrite videosOf_app in Hplain.
  pose proof (store_ok_run es (mount v u now store) Hok) as Hok'.
  pose proof (timers_inv_run es _ (timers_inv_mount v u now store)) as Hinv.
  assert (JS.inherited (videoId (run es (mount v u now store))) = false)
    as Hv.
  { apply (plain_run (v :: videosOf es ++ videosOf es')); [done| |].
    - intros w Hw. apply elem_of_cons. right. apply elem_of_app. by left.
    - by apply plain_head in Hplain. }
  assert (∀ w, w ∈ videosOf es' → JS.inherited w = false) as Hplain'.
  { intros w Hw. unfold plain in Hplain. rewrite Forall_forall in Hplain.
    apply Hplain, elem_of_cons. right. apply elem_of_app. by right. }
  clear Hplain.
  set (c := run es (mount v u now store)) in *.
  change (run (Ready target :: es') c) with (run es' (step (Ready target) c)).
  assert (settled (step (Ready target) c)
          ∧ saveCalls (step (Ready target) c) = saveCalls c
          ∧ fs (step (Ready target) c) = fs c) as (Hset & <- & <-).
  { cbn [step].
    destruct (onReady_timers target c Hinv) as (Ht & _ & _ & Hvid & _ & Hc').
    destruct (onReady_frame target c) as (_ & Hs & Hfs & _).
    split; [|done]. split; [by rewrite Hc'|]. split; [by rewrite Hvid|].
    split; [by rewrite Hfs|].
    rewrite Ht. by intros id cl [_ <-]%lookup_singleton_Some. }
  clearbody c. clear Hc Hok' Hinv Hv.
  set (c1 := step (Ready target) c) in *. clearbody c1.
  revert c1 Hset. induction es' as [|e es' IH]; intros c1 Hset.
  - by destruct Hset.
  - change (run (e :: es') c1) with (run es' (step e c1)).
    destruct (settled_step e c1) as (Hset' & <- & <-); [|done|].
    + intros w ->. apply Hplain', videosOf_cons. by left.
    + apply IH; [|done].
      intros w Hw. apply Hplain', videosOf_cons. by right.
Qed.

Lemma no_writes_once_ready_after_completion_witness :
  let done := snd (UserProgress.saveVideoProgress 500 (Some "alice"%string)
                     "vid" (90 # 1) Scenario.emptyStore) in
  let seeded := run [Load] (mount "vid" (Some Scenario.alice) 1000 done) in
  saveCalls
    (run (Ready Scenario.player
          :: [Tick Scenario.t1 (Scenario.at_ 190 200); StateChange 0]) seeded)
  = saveCalls seeded.
Proof.
  cbn zeta.
  apply (no_writes_once_ready_after_completion "vid" (Some Scenario.alice)
           1000
           (snd (UserProgress.saveVideoProgress 500 (Some "alice"%string)
                   "vid" (90 # 1) Scenario.emptyStore))
           [Load] Scenario.player
           [Tick Scenario.t1 (Scenario.at_ 190 200); StateChange 0]).
  - apply save_store_ok; [|reflexivity].
    intros u v r Hst. vm_compute in Hst. discriminate Hst.
  - apply Forall_cons. split; [reflexivity|]. apply Forall_nil_2.
  - vm_compute. reflexivity.
Defined.

End Monitor.

(** ** The upload box *)

Section Upload.
Import Stdlib.Strings.Ascii.
Import UploadBox.

Lemma lowerAscii_dot a :
  Ascii.eqb (lowerAscii a) "."%char = Ascii.eqb a "."%char.
Proof. by destruct a as [[] [] [] [] [] [] [] []]. Qed.

Lemma append_nil (y : string) : (EmptyString ++ y)%string = y.
Proof. reflexivity. Qed.

Lemma append_cons a (x y : string) :
  (String a x ++ y)%string = String a (x ++ y)%string.
Proof. reflexivity. Qed.

Lemma toLowerCase_app x y :
  toLowerCase (x ++ y) = (toLowerCase x ++ toLowerCase y)%string.
Proof.
  induction x as [|a x IH]; [done|].
  rewrite append_cons. cbn [toLowerCase]. by rewrite append_cons, IH.
Qed.

Lemma dotless_toLowerCase s : dotless (toLowerCase s) = dotless s.
Proof. induction s as [|a s IH]; cbn; by rewrite ?lowerAscii_dot, ?IH. Qed.

Lemma append_assoc_one (cur : string) a e :
  ((cur ++ String a EmptyString) ++ e)%string = (cur ++ String a e)%string.
Proof.
  induction cur as [|b cur IH]; [done|]. by rewrite !append_cons, IH.
Qed.

Lemma append_nil_r (cur : string) : (cur ++ EmptyString)%string = cur.
Proof. induction cur as [|b cur IH]; [done|]. by rewrite append_cons, IH. Qed.

Lemma splitFrom_dotless cur e :
  dotless e = true → splitFrom cur e = [(cur ++ e)%string].
Proof.
  revert cur. induction e as [|a e IH]; intros cur He.
  - cbn [splitFrom]. by rewrite append_nil_r.
  - cbn [dotless] in He. apply andb_prop in He as [Ha He].
    apply negb_true_iff in Ha. cbn [splitFrom].
    rewrite Ha, IH by done. by rewrite append_assoc_one.
Qed.

Lemma last_splitFrom_app cur base e :
  dotless e = true →
  last (splitFrom cur (base ++ String "."%char e)) = Some e.
Proof.
  intros He. revert cur. induction base as [|a base IH]; intros cur.
  - rewrite append_nil. cbn [splitFrom]. change (Ascii.eqb "." ".") with true.
    cbn iota. by rewrite splitFrom_dotless, append_nil.
  - rewrite append_cons. cbn [splitFrom].
    destruct (Ascii.eqb a "."%char); [|by apply IH].
    by rewrite last_cons, IH.
Qed.

Lemma dotted_decompose s :
  dotless s = false →
  ∃ base e, s = (base ++ String "."%char e)%string ∧ dotless e = true.
Proof.
  induction s as [|a s IH]; cbn [dotless]; [done|]. intros Hs.
  destruct (dotless s) eqn:Hrest.
  - rewrite andb_true_r in Hs. apply negb_false_iff, Ascii.eqb_eq in Hs as ->.
    by exists EmptyString, s.
  - destruct IH as (base & e & -> & He); [done|].
    by exists (String a base), e.
Qed.

Lemma dotless_app_dot x y : dotless (x ++ String "."%char y) = false.
Proof.
  induction x as [|a x IH]; [done|].
  rewrite append_cons. cbn [dotless]. by rewrite IH, andb_false_r.
Qed.

Lemma endsWith_dotless y : dotless y = true → endsWith y ".csv" = false.
Proof.
  induction y as [|a y IH]; [done|]. intros Hy.
  cbn [endsWith]. pose proof Hy as Hy'. cbn [dotless] in Hy'.
  apply andb_prop in Hy' as [_ Hrest]. rewrite IH, orb_false_r by done.
  apply String.eqb_neq. intros Heq. by rewrite Heq in Hy.
Qed.

Lemma endsWith_app_dot x y :
  dotless y = true →
  endsWith (x ++ String "."%char y) ".csv" = String.eqb y "csv".
Proof.
  intros Hy. induction x as [|a x IH].
  - rewrite append_nil.
    change (endsWith (String "."%char y) ".csv")
      with (String.eqb y "csv" || endsWith y ".csv").
    by rewrite endsWith_dotless, orb_false_r.
  - rewrite append_cons. cbn [endsWith]. rewrite IH.
    destruct (String.eqb (String a _) ".csv") eqn:Heq; [|done].
    apply String.eqb_eq in Heq. injection Heq as _ Heq.
    pose proof (dotless_app_dot x y) as Hdot. by rewrite Heq in Hdot.
Qed.

(** The extension the check looks at is the lower-cased text after the
    last dot of the name; a name without any dot is its own extension,
    so that a file called "CSV" passes the check. *)
Theorem extension_spec :
  (∀ base e, dotless e = true →
     extension (mkFile (base ++ String "."%char e)) = Some (toLowerCase e))
  ∧ (∀ n, dotless n = true → extension (mkFile n) = Some (toLowerCase n)).
Proof.
  split.
  - intros base e He. unfold extension, split. cbn [name].
    by rewrite last_splitFrom_app.
  - intros n Hn. unfold extension, split. cbn [name].
    by rewrite splitFrom_dotless.
Qed.

Lemma extension_spec_witness :
  extension (mkFile "sales.2024.CSV") = Some "csv"%string
  ∧ allowed (extension (mkFile "CSV")) = true.
Proof.
  destruct extension_spec as [Hdot Hnone]. split.
  - apply (Hdot "sales.2024"%string "CSV"%string). reflexivity.
  - rewrite (Hnone "CSV"%string); reflexivity.
Defined.

(** The preview test [name.toLowerCase().endsWith(".csv")] holds
    exactly for the names that contain a dot and have extension "csv". *)
Lemma csv_preview_test f :
  endsWith (toLowerCase (name f)) ".csv" = true
  ↔ dotless (name f) = false ∧ extension f = Some "csv"%string.
Proof.
  destruct f as [n]. cbn [name]. destruct (dotless n) eqn:Hn.
  - rewrite endsWith_dotless by by rewrite dotless_toLowerCase.
    split; [done|]. by intros [? _].
  - destruct (dotted_decompose n Hn) as (base & e & -> & He).
    unfold extension, split. cbn [name].
    rewrite last_splitFrom_app by done. cbn [fmap option_fmap option_map].
    rewrite toLowerCase_app. cbn [toLowerCase].
    change (lowerAscii "."%char) with "."%char.
    rewrite endsWith_app_dot by by rewrite dotless_toLowerCase.
    rewrite String.eqb_eq. split.
    + by intros ->.
    + by intros [_ [= ->]].
Qed.

(** Selecting a file.  A name whose extension is not csv, xlsx or xls
    is refused with the "Only .csv ..." message and nothing else
    changes: the file selected before, its preview and the parse jobs
    stay.  An accepted file becomes the selected one and the preview is
    cleared; CSV parsing starts exactly when the name contains a dot
    and its extension is csv, and every other accepted file, one
    called "csv" without a dot included, gets the "Preview for Excel
    files not implemented yet." message instead. *)
Theorem handleFileSelect_outcome f st :
  let st' := handleFileSelect f st in
  (allowed (extension f) = false →
   error st' = OnlyCsvExcelAllowed
   ∧ file st' = file st ∧ previewRows st' = previewRows st
   ∧ previewCols st' = previewCols st ∧ parseJobs st' = parseJobs st)
  ∧ (allowed (extension f) = true →
     file st' = Some f ∧ previewRows st' = [] ∧ previewCols st' = []
     ∧ (dotless (name f) = false ∧ extension f = Some "csv"%string →
        parsing st' = true ∧ error st' = NoError
        ∧ parseJobs st' = parseJobs st ++ [f])
     ∧ (¬ (dotless (name f) = false ∧ extension f = Some "csv"%string) →
        parsing st' = false ∧ error st' = ExcelPreviewMissing
        ∧ parseJobs st' = parseJobs st))
  ∧ posts st' = posts st ∧ success st' = false.
Proof.
  cbn zeta. unfold handleFileSelect, generatePreview.
  pose proof (csv_preview_test f) as Hcsv.
  destruct (allowed (extension f)) eqn:Hok.
  - split; [done|]. split; [|by destruct (endsWith _ _)]. intros _.
    destruct (endsWith _ _) eqn:Hends; cbn.
    + do 3 (split; [done|]). split; [done|]. intros Hno.
      exfalso. by apply Hno, Hcsv.
    + do 3 (split; [done|]). split; [|done]. intros Hyes.
      apply Hcsv in Hyes. congruence.
  - cbn. split; [done|]. split; [done|]. done.
Qed.

Lemma handleFileSelect_outcome_witness :
  let st' := handleFileSelect (mkFile "csv") (init None) in
  file st' = Some (mkFile "csv") ∧ parsing st' = false
  ∧ error st' = ExcelPreviewMissing ∧ parseJobs st' = [].
Proof.
  cbn zeta.
  destruct (handleFileSelect_outcome (mkFile "csv") (init None))
    as (_ & Hyes & _).
  destruct Hyes as (Hfile & _ & _ & _ & Hexcel).
  - reflexivity.
  - destruct Hexcel as (Hp & He & Hj).
    + intros [Hdot _]. vm_compute in Hdot. discriminate Hdot.
    + split; [exact Hfile|]. split; [exact Hp|]. split; [exact He | exact Hj].
Defined.

Lemma upload_inv_step e st : upload_inv st → upload_inv (step e st).
Proof.
  intros Hinv. pose proof Hinv as (Hfile & Hposts & Hfly).
  destruct e as [[f|]|fields data| | | |ok]; cbn [step onFile].
  - unfold handleFileSelect, generatePreview.
    destruct (allowed (extension f)) eqn:Hok; [|by split].
    destruct (endsWith _ _); (split; [|by split]); by intros ? [= <-].
  - done.
  - by split.
  - by split.
  - destruct (file st) eqn:Hf; [|done]. unfold remove. by split.
  - destruct (file st) as [f|] eqn:Hf; [|done].
    destruct (uploading st) eqn:Hup; [done|].
    unfold handleUpload. rewrite Hf. split; [by cbn|]. split.
    + cbn [posts]. apply Forall_app. split; [done|].
      apply Forall_singleton. cbn. by apply Hfile.
    + cbn. by rewrite Hfly.
  - destruct (inFlight st) as [|n] eqn:Hn; [done|].
    destruct (uploading st) eqn:Hup; [|done]. injection Hfly as ->.
    unfold uploadSettled, upload_inv. destruct ok; cbn; rewrite Hn; by split.
Qed.

Lemma upload_inv_run es st : upload_inv st → upload_inv (run es st).
Proof.
  revert st. induction es as [|e es IH]; intros st Hinv; [done|].
  change (upload_inv (run es (step e st))). by apply IH, upload_inv_step.
Qed.

(** Whatever the user does with the box, every upload request it has
    sent carries a file that passed the extension check, the selected
    file has passed it too, and at most one request is in flight, while
    [uploading] is set. *)
Theorem only_checked_files_are_uploaded uid es :
  let st := run es (init uid) in
  Forall (λ p, allowed (extension (post_file p)) = true) (posts st)
  ∧ (∀ f, file st = Some f → allowed (extension f) = true)
  ∧ (inFlight st ≤ 1)%nat
  ∧ (uploading st = true ↔ inFlight st = 1%nat).
Proof.
  cbn zeta.
  assert (upload_inv (run es (init uid))) as (Hfile & Hposts & Hfly).
  { apply upload_inv_run. split; [done|]. split; [by apply Forall_nil|done]. }
  split; [done|]. split; [done|]. rewrite Hfly.
  destruct (uploading _); split; try lia; done.
Qed.

End Upload.
